(** * MPD input layer: the ALSA capture stream and the Qobuz tag scanner

    A shallow embedding of
      - [src/input/plugins/AlsaInputPlugin.cxx]  (module [Alsa])
      - [src/input/plugins/QobuzTagScanner.cxx]  (module [Qobuz])
    together with the properties of the two subsystems.

    Conventions.
      - C++ integers are [Z]; wrap-around of [unsigned] is written out
        with [mod 2^32].
      - A [std::string_view] is an [option string]: [None] is the view
        whose [data()] is [nullptr], [Some EmptyString] an empty view on real
        storage.  The source distinguishes the two.
      - Exceptions are values of [exn]; a function that may throw
        returns [exn + A].
      - Calls into libasound are recorded in a trace of [PcmCall]s; what
        the library answers is an input of the model. *)

From Stdlib Require Import ZArith String Ascii List Bool Lia.
From stdpp Require Import base option gmap strings.
Import ListNotations.

Local Open Scope string_scope.
Local Open Scope list_scope.
Local Open Scope Z_scope.

(** ** Exceptions *)

Inductive exn : Type :=
| runtime_error (what : string)
| alsa_error (code : Z) (what : string)
| remote_error (status : Z).

(** ** String helpers ([util/StringCompare.hxx], [util/StringSplit.hxx]) *)

Module Util.

Definition string_view : Type := option string.

Definition sv_empty (v : string_view) : bool :=
  match v with
  | Some (String _ _) => false
  | _ => true
  end.

(** ASCII lower-casing, as done by [strncasecmp] in the C locale. *)
Definition to_lower (c : ascii) : ascii :=
  let n := nat_of_ascii c in
  if (Nat.leb 65 n && Nat.leb n 90)%bool then ascii_of_nat (n + 32) else c.

Definition char_eq_ignore_case (a b : ascii) : bool :=
  Ascii.eqb (to_lower a) (to_lower b).

(** Modelled from the spec: [util/StringCompare.hxx] is not part of the
    sources at hand.  [StringStartsWithIgnoreCase haystack needle]
    holds when [needle] is a prefix of [haystack] up to ASCII case. *)
Fixpoint StringStartsWithIgnoreCase (haystack needle : string) : bool :=
  match needle with
  | EmptyString => true
  | String n needle' =>
      match haystack with
      | EmptyString => false
      | String h haystack' =>
          char_eq_ignore_case h n && StringStartsWithIgnoreCase haystack' needle'
      end
  end.

Fixpoint drop_chars (n : nat) (s : string) : string :=
  match n, s with
  | S n', String _ s' => drop_chars n' s'
  | _, _ => s
  end.

(** Modelled from the spec: [StringAfterPrefixIgnoreCase] returns the
    rest of [haystack] behind the prefix, or the null view when the
    prefix does not match. *)
Definition StringAfterPrefixIgnoreCase (haystack needle : string) : string_view :=
  if StringStartsWithIgnoreCase haystack needle
  then Some (drop_chars (String.length needle) haystack)
  else None.

(** Modelled from the spec: [Split haystack ch] cuts at the first
    occurrence of [ch]; without one the second half is the null view. *)
Fixpoint Split (haystack : string) (ch : ascii) : string * string_view :=
  match haystack with
  | EmptyString => (EmptyString, None)
  | String c rest =>
      if Ascii.eqb c ch then (EmptyString, Some rest)
      else let '(a, b) := Split rest ch in (String c a, b)
  end.

(** [std::string::find(needle) != npos]. *)
Fixpoint contains (haystack needle : string) : bool :=
  String.prefix needle haystack ||
  match haystack with
  | EmptyString => false
  | String _ rest => contains rest needle
  end.

End Util.

(** ** The Qobuz tag scanner *)

Module Qobuz.

(** [enum class State] of [ResponseParser]. *)
Inductive State : Type :=
| NONE
| COMPOSER
| COMPOSER_NAME
| DURATION
| TITLE
| ALBUM
| ALBUM_TITLE
| ALBUM_ARTIST
| ALBUM_ARTIST_NAME
| PERFORMER
| PERFORMER_NAME.

(** The tag types the scanner emits. *)
Inductive TagType : Type :=
| TAG_TITLE
| TAG_COMPOSER
| TAG_ALBUM
| TAG_ALBUM_ARTIST
| TAG_PERFORMER.

(** [SignedSongTime]: [Negative] is the "unknown" value a fresh
    [TagBuilder] holds, [FromS s] a duration of [s] seconds. *)
Inductive SignedSongTime : Type :=
| Negative
| FromS (seconds : Z).

(** Modelled from the spec: [tag/Builder.hxx] is not part of the
    sources at hand.  The record is an ordered sequence of
    (kind, value) pairs, duplicates allowed, insertion order kept,
    plus the duration. *)
Record TagBuilder : Type := mkTag {
  duration : SignedSongTime;
  items : list (TagType * string)
}.

Definition Tag : Type := TagBuilder.

Definition TagBuilder_new : TagBuilder :=
  {| duration := Negative; items := [] |}.

Definition AddItem (ty : TagType) (value : string) (t : TagBuilder) : TagBuilder :=
  {| duration := duration t; items := items t ++ [(ty, value)] |}.

Definition SetDuration (d : SignedSongTime) (t : TagBuilder) : TagBuilder :=
  {| duration := d; items := items t |}.

Definition Commit (t : TagBuilder) : Tag := t.

(** The fields of [ResponseParser]. *)
Record ResponseParser : Type := mkParser {
  state : State;
  map_depth : Z;          (* unsigned *)
  tag : TagBuilder
}.

Definition ResponseParser_new : ResponseParser :=
  {| state := NONE; map_depth := 0; tag := TagBuilder_new |}.

Definition GetTag (p : ResponseParser) : Tag := Commit (tag p).

Definition set_state (st : State) (p : ResponseParser) : ResponseParser :=
  {| state := st; map_depth := map_depth p; tag := tag p |}.

Definition set_tag (t : TagBuilder) (p : ResponseParser) : ResponseParser :=
  {| state := state p; map_depth := map_depth p; tag := t |}.

Definition set_map_depth (d : Z) (p : ResponseParser) : ResponseParser :=
  {| state := state p; map_depth := d; tag := tag p |}.

(** [(unsigned)value] for a [long long]. *)
Definition to_unsigned (value : Z) : Z := value mod 2 ^ 32.

(** Every callback returns the [bool] yajl looks at ([false] cancels
    the parse) and the parser it leaves behind. *)
Definition Integer (value : Z) (p : ResponseParser) : bool * ResponseParser :=
  match state p with
  | DURATION =>
      if 0 <? value
      then (true, set_tag (SetDuration (FromS (to_unsigned value)) (tag p)) p)
      else (true, p)
  | _ => (true, p)
  end.

(** The callback [String]; the name with an underscore keeps the
    constructor of Rocq's strings in view. *)
Definition String_ (value : string) (p : ResponseParser) : bool * ResponseParser :=
  match state p with
  | TITLE =>
      if map_depth p =? 1
      then (true, set_tag (AddItem TAG_TITLE value (tag p)) p)
      else (true, p)
  | COMPOSER_NAME =>
      if map_depth p =? 2
      then (true, set_tag (AddItem TAG_COMPOSER value (tag p)) p)
      else (true, p)
  | ALBUM_TITLE =>
      if map_depth p =? 2
      then (true, set_tag (AddItem TAG_ALBUM value (tag p)) p)
      else (true, p)
  | ALBUM_ARTIST_NAME =>
      if map_depth p =? 3
      then (true, set_tag (AddItem TAG_ALBUM_ARTIST value (tag p)) p)
      else (true, p)
  | PERFORMER_NAME =>
      if map_depth p =? 2
      then (true, set_tag (AddItem TAG_PERFORMER value (tag p)) p)
      else (true, p)
  | _ => (true, p)
  end.

Definition StartMap (p : ResponseParser) : bool * ResponseParser :=
  (true, set_map_depth ((map_depth p + 1) mod 2 ^ 32) p).

Definition MapKey (value : string) (p : ResponseParser) : bool * ResponseParser :=
  match map_depth p with
  | 1 =>
      if String.eqb value "composer" then (true, set_state COMPOSER p)
      else if String.eqb value "duration" then (true, set_state DURATION p)
      else if String.eqb value "title" then (true, set_state TITLE p)
      else if String.eqb value "album" then (true, set_state ALBUM p)
      else if String.eqb value "performer" then (true, set_state PERFORMER p)
      else (true, set_state NONE p)
  | 2 =>
      match state p with
      | NONE | DURATION | TITLE => (true, p)
      | COMPOSER | COMPOSER_NAME =>
          if String.eqb value "name" then (true, set_state COMPOSER_NAME p)
          else (true, set_state COMPOSER p)
      | ALBUM | ALBUM_TITLE | ALBUM_ARTIST | ALBUM_ARTIST_NAME =>
          if String.eqb value "title" then (true, set_state ALBUM_TITLE p)
          else if String.eqb value "artist" then (true, set_state ALBUM_ARTIST p)
          else (true, set_state ALBUM p)
      | PERFORMER | PERFORMER_NAME =>
          if String.eqb value "name" then (true, set_state PERFORMER_NAME p)
          else (true, set_state PERFORMER p)
      end
  | 3 =>
      match state p with
      | ALBUM_ARTIST | ALBUM_ARTIST_NAME =>
          if String.eqb value "name" then (true, set_state ALBUM_ARTIST_NAME p)
          else (true, set_state ALBUM_ARTIST p)
      | _ => (true, p)
      end
  | _ => (true, p)
  end.

Definition EndMap (p : ResponseParser) : bool * ResponseParser :=
  let p1 :=
    match map_depth p with
    | 2 => set_state NONE p
    | 3 =>
        match state p with
        | ALBUM_TITLE | ALBUM_ARTIST | ALBUM_ARTIST_NAME => set_state ALBUM p
        | _ => p
        end
    | _ => p
    end in
  (true, set_map_depth ((map_depth p1 - 1) mod 2 ^ 32) p1).

(** The events yajl reports.  [parse_callbacks] registers a callback
    for integers, strings, map starts, map keys and map ends; the
    other slots are [nullptr], so those events reach no code. *)
Inductive Event : Type :=
| EvNull
| EvBoolean (b : bool)
| EvInteger (value : Z)
| EvDouble
| EvNumber (text : string)
| EvString (value : string)
| EvStartMap
| EvMapKey (key : string)
| EvEndMap
| EvStartArray
| EvEndArray.

Definition dispatch (e : Event) (p : ResponseParser) : bool * ResponseParser :=
  match e with
  | EvInteger v => Integer v p
  | EvString s => String_ s p
  | EvStartMap => StartMap p
  | EvMapKey k => MapKey k p
  | EvEndMap => EndMap p
  | EvNull | EvBoolean _ | EvDouble | EvNumber _
  | EvStartArray | EvEndArray => (true, p)
  end.

(** Modelled from the spec: [lib/yajl] is not part of the sources at
    hand.  [feed] is the callback side of a parse alone: the callbacks
    run over a sequence of events in order, up to the first one that
    returns [false] ([None]).  Which sequences the parser lets through
    to the callbacks is the matter of [yajl_parse] below. *)
Fixpoint feed (evs : list Event) (p : ResponseParser) : option ResponseParser :=
  match evs with
  | [] => Some p
  | e :: rest =>
      let '(ok, p') := dispatch e p in
      if ok then feed rest p' else None
  end.

(** Modelled from the spec: the error of a parse whose nesting is
    violated (4.6, 7: MalformedStructureError, a hard parse error). *)
Definition MalformedStructureError : exn := runtime_error "parse error".

(** Modelled from the spec: the nesting the parser keeps track of.  The
    stack holds, innermost first, the containers that are open: a map
    that expects a key or its end, a map that expects the value of the
    key just read, an array; at the bottom the document itself, before
    and after its one value. *)
Inductive Frame : Type :=
| RootStart
| RootDone
| ExpectKey
| ExpectValue
| InArray.

(** A value is in place where the document, a key or an array waits
    for one. *)
Definition after_value (stack : list Frame) : option (list Frame) :=
  match stack with
  | RootStart :: below => Some (RootDone :: below)
  | ExpectValue :: below => Some (ExpectKey :: below)
  | InArray :: below => Some (InArray :: below)
  | _ => None
  end.

(** Whether the parser lets an event through, and the stack behind it.
    A map end is let through only to close the map that is open and
    expects a key; an unmatched one is refused. *)
Definition yajl_accept (e : Event) (stack : list Frame) : option (list Frame) :=
  match e with
  | EvNull | EvBoolean _ | EvInteger _ | EvDouble | EvNumber _ | EvString _ =>
      after_value stack
  | EvStartMap => cons ExpectKey <$> after_value stack
  | EvStartArray => cons InArray <$> after_value stack
  | EvMapKey _ =>
      match stack with
      | ExpectKey :: below => Some (ExpectValue :: below)
      | _ => None
      end
  | EvEndMap =>
      match stack with
      | ExpectKey :: below => Some below
      | _ => None
      end
  | EvEndArray =>
      match stack with
      | InArray :: below => Some below
      | _ => None
      end
  end.

(** Modelled from the spec: the parse of a body.  Every event is
    checked against the nesting before its callback runs; an event out
    of place, a callback that returns [false] and a body that ends
    before its value is complete end the parse with an error, and
    there is no parser to take a record from. *)
Fixpoint yajl_run (evs : list Event) (stack : list Frame) (p : ResponseParser)
  : exn + ResponseParser :=
  match evs with
  | [] =>
      match stack with
      | [RootDone] => inr p
      | _ => inl MalformedStructureError
      end
  | e :: rest =>
      match yajl_accept e stack with
      | None => inl MalformedStructureError
      | Some stack' =>
          let '(ok, p') := dispatch e p in
          if ok then yajl_run rest stack' p'
          else inl (runtime_error "client cancelled parse")
      end
  end.

Definition yajl_parse (evs : list Event) (p : ResponseParser) : exn + ResponseParser :=
  yajl_run evs [RootStart] p.

(** The maps open in a stack. *)
Fixpoint map_frames (stack : list Frame) : nat :=
  match stack with
  | [] => O
  | (ExpectKey | ExpectValue) :: below => S (map_frames below)
  | _ :: below => map_frames below
  end.

(** Modelled from the spec: the HTTP transport is not part of the
    sources at hand.  [Curl::Headers] is a
    [std::multimap<std::string, std::string>]: every key carries the
    values received under it, in order; [find] yields the first of
    them, or [end()]. *)
Definition Headers : Type := gmap string (list string).

Definition Headers_find (key : string) (headers : Headers) : option string :=
  match headers !! key with
  | Some (v :: _) => Some v
  | _ => None
  end.

(** The two parsers [MakeParser] can hand out.  [QobuzErrorParser]
    lives in another file; only its constructor arguments are kept. *)
Inductive CurlResponseParser : Type :=
| QobuzErrorParser (status : Z) (headers : Headers)
| MkResponseParser (p : ResponseParser).

Definition MakeParser (status : Z) (headers : Headers) : exn + CurlResponseParser :=
  if negb (status =? 200) then inr (QobuzErrorParser status headers)
  else
    match Headers_find "content-type" headers with
    | None => inl (runtime_error "Not a JSON response from Qobuz")
    | Some v =>
        if negb (Util.contains v "/json")
        then inl (runtime_error "Not a JSON response from Qobuz")
        else inr (MkResponseParser ResponseParser_new)
    end.

(** What the [RemoteTagHandler] gets to see. *)
Inductive HandlerCall : Type :=
| OnRemoteTag (t : Tag)
| OnRemoteTagError (e : exn).

(** [FinishParser] asserts that it is given a [ResponseParser]; on
    anything else it has no defined result ([None]). *)
Definition FinishParser (p : CurlResponseParser) : option (list HandlerCall) :=
  match p with
  | MkResponseParser rp => Some [OnRemoteTag (GetTag rp)]
  | QobuzErrorParser _ _ => None
  end.

Definition OnError (e : exn) : list HandlerCall := [OnRemoteTagError e].

(** Whether the field extractor was constructed for a response. *)
Definition extractor_constructed (r : exn + CurlResponseParser) : bool :=
  match r with
  | inr (MkResponseParser _) => true
  | _ => false
  end.

(** Modelled from the spec: the curl delegate that calls [MakeParser]
    on the response head, has the body parsed by the parser it got and
    then calls [FinishParser] is not part of the sources at hand, nor
    is [QobuzErrorParser].  A structured error body surfaces as a
    typed remote error; every failure, a failed parse among them, goes
    to [OnError], and [FinishParser] is reached only behind a parse
    that went through. *)
Definition OnResponse (status : Z) (headers : Headers) (body : list Event)
  : list HandlerCall :=
  match MakeParser status headers with
  | inl e => OnError e
  | inr (QobuzErrorParser st _) => OnError (remote_error st)
  | inr (MkResponseParser rp) =>
      match yajl_parse body rp with
      | inl e => OnError e
      | inr rp' =>
          match FinishParser (MkResponseParser rp') with
          | Some calls => calls
          | None => []
          end
      end
  end.

(** *** Token sequences *)

(** The events of
    [{"title":T,"composer":{"name":C},"album":{"title":A,"artist":{"name":AA}},"duration":d}]. *)
Definition track_events (T C A AA : string) (d : Z) : list Event :=
  [ EvStartMap;
      EvMapKey "title"; EvString T;
      EvMapKey "composer"; EvStartMap; EvMapKey "name"; EvString C; EvEndMap;
      EvMapKey "album"; EvStartMap;
        EvMapKey "title"; EvString A;
        EvMapKey "artist"; EvStartMap; EvMapKey "name"; EvString AA; EvEndMap;
      EvEndMap;
      EvMapKey "duration"; EvInteger d;
    EvEndMap ].

(** Whether some map end in [evs] has no map start before it that is
    still open; [opened] counts the maps open on entry. *)
Fixpoint extra_exit (opened : nat) (evs : list Event) : bool :=
  match evs with
  | [] => false
  | EvStartMap :: rest => extra_exit (S opened) rest
  | EvEndMap :: rest =>
      match opened with
      | O => true
      | S o => extra_exit o rest
      end
  | _ :: rest => extra_exit opened rest
  end.

(** Map starts minus map ends. *)
Fixpoint net_depth (evs : list Event) : Z :=
  match evs with
  | [] => 0
  | EvStartMap :: rest => 1 + net_depth rest
  | EvEndMap :: rest => net_depth rest - 1
  | _ :: rest => net_depth rest
  end.

(** The terminal fields with the depth the scanner expects them at. *)
Definition terminal_depth (st : State) : option Z :=
  match st with
  | TITLE => Some 1
  | COMPOSER_NAME => Some 2
  | ALBUM_TITLE => Some 2
  | PERFORMER_NAME => Some 2
  | ALBUM_ARTIST_NAME => Some 3
  | DURATION => Some 1
  | _ => None
  end.

(** *** Reading token sequences *)

(** The string scalars and the integer scalars of a sequence, in
    order. *)
Fixpoint string_values (evs : list Event) : list string :=
  match evs with
  | [] => []
  | EvString v :: rest => v :: string_values rest
  | _ :: rest => string_values rest
  end.

Fixpoint integer_values (evs : list Event) : list Z :=
  match evs with
  | [] => []
  | EvInteger v :: rest => v :: integer_values rest
  | _ :: rest => integer_values rest
  end.

(** [closes_at floor d evs]: read from map depth [d], the events never
    close a map at depth [floor] or above it in the tree, never open
    more than [2^32 - 1] maps, and end at depth [floor]: with
    [d = floor] they are the inside of one object whose members sit at
    depth [floor]. *)
Fixpoint closes_at (floor d : Z) (evs : list Event) : bool :=
  match evs with
  | [] => d =? floor
  | EvStartMap :: rest => (d + 1 <? 2 ^ 32) && closes_at floor (d + 1) rest
  | EvEndMap :: rest => (floor <? d) && closes_at floor (d - 1) rest
  | _ :: rest => closes_at floor d rest
  end.

(** The tag type [String] files a value under, by path state. *)
Definition item_type (st : State) : option TagType :=
  match st with
  | TITLE => Some TAG_TITLE
  | COMPOSER_NAME => Some TAG_COMPOSER
  | ALBUM_TITLE => Some TAG_ALBUM
  | ALBUM_ARTIST_NAME => Some TAG_ALBUM_ARTIST
  | PERFORMER_NAME => Some TAG_PERFORMER
  | _ => None
  end.

End Qobuz.

(** ** The ALSA input plugin *)

Module Alsa.
Import Util.

Definition ALSA_URI_PREFIX : string := "alsa://".
Definition BUILTIN_DEFAULT_DEVICE : string := "default".
Definition BUILTIN_DEFAULT_FORMAT : string := "48000:16:2".

(** Milliseconds. *)
Definition DEFAULT_BUFFER_TIME : Z := 1000.
Definition DEFAULT_RESUME_TIME : Z := DEFAULT_BUFFER_TIME / 2.

(** [errno] values and libasound flags (Linux). *)
Definition EAGAIN : Z := 11.
Definition EPIPE : Z := 32.
Definition ESTRPIPE : Z := 86.
Definition SND_PCM_NONBLOCK : Z := 1.
Definition SND_PCM_NO_AUTO_RESAMPLE : Z := 65536.
Definition SND_PCM_NO_AUTO_CHANNELS : Z := 131072.
Definition SND_PCM_NO_AUTO_FORMAT : Z := 262144.

(** [snd_pcm_state_t]. *)
Inductive snd_pcm_state_t : Type :=
| SND_PCM_STATE_OPEN
| SND_PCM_STATE_SETUP
| SND_PCM_STATE_PREPARED
| SND_PCM_STATE_RUNNING
| SND_PCM_STATE_XRUN
| SND_PCM_STATE_DRAINING
| SND_PCM_STATE_PAUSED
| SND_PCM_STATE_SUSPENDED
| SND_PCM_STATE_DISCONNECTED
| SND_PCM_STATE_PRIVATE1.

(** Calls on the capture handle that act on the device. *)
Inductive PcmCall : Type :=
| snd_pcm_open (device : string) (mode : Z)
| snd_pcm_configure              (* the negotiation of ConfigureCapture *)
| snd_pcm_close
| snd_pcm_prepare
| snd_pcm_start
| snd_pcm_pause (enable : Z)
| snd_pcm_resume
| snd_pcm_readi (frames : Z).

(** What a function does besides returning. *)
Inductive Effect : Type :=
| FmtDebug (msg : string)
| Call (c : PcmCall).

Definition pcm_calls (effects : list Effect) : list PcmCall :=
  omap (fun e => match e with Call c => Some c | FmtDebug _ => None end) effects.

(** What libasound answers to the calls [Recover] may make. *)
Record PcmReplies : Type := mkReplies {
  pause_reply : Z;
  resume_reply : Z;
  prepare_reply : Z;
  start_reply : Z
}.

(** The static [global_config]; a [const char *] is an
    [option string], [None] being [nullptr]. *)
Record global_config_t : Type := mkConfig {
  default_device : option string;
  default_format : option string;
  mode : Z
}.

(** Static storage is zero-initialised. *)
Definition global_config_zero : global_config_t :=
  {| default_device := None; default_format := None; mode := 0 |}.

(** Modelled from the spec: [config/Block.hxx] is not part of the
    sources at hand.  A [ConfigBlock], as far as the plugin reads it,
    is a set of named string values; [GetBlockValue] yields the value
    under a name, or the default passed along. *)
Definition ConfigBlock : Type := gmap string string.

Definition GetBlockValue (block : ConfigBlock) (name default_value : string) : string :=
  default default_value (block !! name).

Section Externals.

(** Collaborators outside the sources at hand: the audio format type
    with its parser and size functions, and the parser of boolean
    settings. *)
Variable AudioFormat : Type.
Variable ParseAudioFormat : string -> exn + AudioFormat.
Variable GetFrameSize : AudioFormat -> Z.
Variable TimeToSize : AudioFormat -> Z -> Z.
Variable get_bool : string -> exn + bool.

Definition GetBlockValue_bool (block : ConfigBlock) (name : string)
  (default_value : bool) : exn + bool :=
  match block !! name with
  | None => inr default_value
  | Some v => get_bool v
  end.

Definition mode_bit (setting : exn + bool) (bit : Z) (k : Z -> exn + global_config_t)
  (m : Z) : exn + global_config_t :=
  match setting with
  | inl e => inl e
  | inr b => k (if negb b then Z.lor m bit else m)
  end.

Definition alsa_input_init (block : ConfigBlock) : exn + global_config_t :=
  let dev := GetBlockValue block "default_device" BUILTIN_DEFAULT_DEVICE in
  let fmt := GetBlockValue block "default_format" BUILTIN_DEFAULT_FORMAT in
  mode_bit (GetBlockValue_bool block "auto_resample" true) SND_PCM_NO_AUTO_RESAMPLE
    (mode_bit (GetBlockValue_bool block "auto_channels" true) SND_PCM_NO_AUTO_CHANNELS
       (mode_bit (GetBlockValue_bool block "auto_format" true) SND_PCM_NO_AUTO_FORMAT
          (fun m => inr {| default_device := Some dev;
                           default_format := Some fmt;
                           mode := m |})))
    0.

(** *** [AlsaInputStream::SourceSpec] *)

(** [audio_format] is [None] as long as the constructor has not
    assigned the member. *)
Record SourceSpec : Type := mkSpec {
  uri : string;
  device_name : string_view;
  format_string : string_view;
  audio_format : option AudioFormat
}.

Definition IsValidScheme (spec : SourceSpec) : bool :=
  bool_decide (is_Some (device_name spec)).

Definition IsValid (spec : SourceSpec) : bool :=
  bool_decide (is_Some (device_name spec)) && bool_decide (is_Some (format_string spec)).

Definition GetURI (spec : SourceSpec) : string := uri spec.
Definition GetDeviceName (spec : SourceSpec) : string_view := device_name spec.
Definition GetFormatString (spec : SourceSpec) : string_view := format_string spec.

(** Reading a member that was never assigned gives whatever the
    storage holds: [indeterminate]. *)
Definition GetAudioFormat (indeterminate : AudioFormat) (spec : SourceSpec) : AudioFormat :=
  default indeterminate (audio_format spec).

(** The constructor, statement by statement.  ([alsa_input_init] never
    leaves [default_device] null; on a null one the device name stays
    the null view here.) *)
Definition SourceSpec_new (global_config : global_config_t) (_uri : string)
  : exn + SourceSpec :=
  let '(a, b) := Split _uri "?" in
  let device_name0 := StringAfterPrefixIgnoreCase a ALSA_URI_PREFIX in
  let format_string0 :=
    match b with
    | Some b' => StringAfterPrefixIgnoreCase b' "format="
    | None =>
        match default_format global_config with
        | Some f => Some f
        | None => None
        end
    end in
  let spec0 := {| uri := _uri; device_name := device_name0;
                  format_string := format_string0; audio_format := None |} in
  if IsValidScheme spec0 then
    let device_name1 :=
      if sv_empty device_name0 then default_device global_config
      else device_name0 in
    match format_string0 with
    | Some f =>
        match ParseAudioFormat f with
        | inl e => inl e
        | inr af =>
            inr {| uri := _uri; device_name := device_name1;
                   format_string := format_string0; audio_format := Some af |}
        end
    | None =>
        inr {| uri := _uri; device_name := device_name1;
               format_string := format_string0; audio_format := None |}
    end
  else inr spec0.

(** The format token an identifier carries under a configuration: what
    follows [format=] at the head of the query or, without a query, the
    configured default. *)
Definition format_token (global_config : global_config_t) (_uri : string)
  : string_view :=
  match (Split _uri "?").2 with
  | Some query => StringAfterPrefixIgnoreCase query "format="
  | None => default_format global_config
  end.

(** *** [AlsaInputStream::Recover] *)

(** The tail shared by the suspended case (by fall-through) and the
    open / setup / xrun cases. *)
Definition prepare_and_start (r : PcmReplies) : Z * list Effect :=
  let err := prepare_reply r in
  if err =? 0
  then (start_reply r, [Call snd_pcm_prepare; Call snd_pcm_start])
  else (err, [Call snd_pcm_prepare]).

(** [st] is what [snd_pcm_state(capture_handle)] reports. *)
Definition Recover (device : string) (err : Z) (st : snd_pcm_state_t)
  (r : PcmReplies) : Z * list Effect :=
  let log :=
    if err =? - EPIPE
    then [FmtDebug (String.append "Overrun on ALSA capture device " device)]
    else if err =? - ESTRPIPE
    then [FmtDebug (String.append "ALSA capture device "
                      (String.append device " was suspended"))]
    else [] in
  match st with
  | SND_PCM_STATE_PAUSED =>
      (pause_reply r, log ++ [Call (snd_pcm_pause 0)])
  | SND_PCM_STATE_SUSPENDED =>
      let err1 := resume_reply r in
      if err1 =? - EAGAIN then (0, log ++ [Call snd_pcm_resume])
      else
        let '(err2, fx) := prepare_and_start r in
        (err2, log ++ Call snd_pcm_resume :: fx)
  | SND_PCM_STATE_OPEN
  | SND_PCM_STATE_SETUP
  | SND_PCM_STATE_XRUN =>
      let '(err1, fx) := prepare_and_start r in
      (err1, log ++ fx)
  | SND_PCM_STATE_DISCONNECTED => (err, log)
  | SND_PCM_STATE_PREPARED
  | SND_PCM_STATE_RUNNING
  | SND_PCM_STATE_DRAINING => (0, log)
  | SND_PCM_STATE_PRIVATE1 => (err, log)
  end.

(** The outcome of the re-prepare branch: the device is prepared, and
    started when that went well; the first failure is the result. *)
Definition reprepare_result (r : PcmReplies) : Z :=
  if prepare_reply r =? 0 then start_reply r else prepare_reply r.

Definition reprepare_calls (r : PcmReplies) : list PcmCall :=
  snd_pcm_prepare :: (if prepare_reply r =? 0 then [snd_pcm_start] else []).

(** What [Recover] returns and which calls it makes on the device. *)
Definition recovered (device : string) (err : Z) (st : snd_pcm_state_t)
  (r : PcmReplies) : Z * list PcmCall :=
  ((Recover device err st r).1, pcm_calls (Recover device err st r).2).

(** *** The stream object *)

(** Modelled from the spec: the bases [AsyncInputStream] and
    [MultiSocketMonitor] are not part of the sources at hand.  The
    record holds the members of [AlsaInputStream] and what the plugin
    touches of its bases: the pause flag, the stored exception, and the
    buffer as [write_region], the size in bytes of the span
    [PrepareWriteBuffer] hands out, which [CommitWriteBuffer] shrinks.
    [invalidations] counts the calls of [InvalidateSockets],
    [available_calls] those of [InvokeOnAvailable]; [effects] is the
    trace of what was done to the device. *)
Record AlsaInputStream : Type := mkStream {
  stream_uri : string;
  buffer_size : Z;
  resume_at : Z;
  paused : bool;
  write_region : Z;
  postponed_exception : option exn;
  mime_type : string_view;
  ready : bool;
  device : string;
  frame_size : Z;
  sockets : list Z;
  invalidations : nat;
  available_calls : nat;
  effects : list Effect
}.

Definition set_paused (b : bool) (s : AlsaInputStream) : AlsaInputStream :=
  mkStream (stream_uri s) (buffer_size s) (resume_at s) b (write_region s)
    (postponed_exception s) (mime_type s) (ready s) (device s) (frame_size s)
    (sockets s) (invalidations s) (available_calls s) (effects s).

Definition set_write_region (w : Z) (s : AlsaInputStream) : AlsaInputStream :=
  mkStream (stream_uri s) (buffer_size s) (resume_at s) (paused s) w
    (postponed_exception s) (mime_type s) (ready s) (device s) (frame_size s)
    (sockets s) (invalidations s) (available_calls s) (effects s).

Definition set_postponed_exception (e : exn) (s : AlsaInputStream) : AlsaInputStream :=
  mkStream (stream_uri s) (buffer_size s) (resume_at s) (paused s) (write_region s)
    (Some e) (mime_type s) (ready s) (device s) (frame_size s)
    (sockets s) (invalidations s) (available_calls s) (effects s).

Definition set_sockets (fds : list Z) (s : AlsaInputStream) : AlsaInputStream :=
  mkStream (stream_uri s) (buffer_size s) (resume_at s) (paused s) (write_region s)
    (postponed_exception s) (mime_type s) (ready s) (device s) (frame_size s)
    fds (invalidations s) (available_calls s) (effects s).

Definition InvalidateSockets (s : AlsaInputStream) : AlsaInputStream :=
  mkStream (stream_uri s) (buffer_size s) (resume_at s) (paused s) (write_region s)
    (postponed_exception s) (mime_type s) (ready s) (device s) (frame_size s)
    (sockets s) (S (invalidations s)) (available_calls s) (effects s).

Definition InvokeOnAvailable (s : AlsaInputStream) : AlsaInputStream :=
  mkStream (stream_uri s) (buffer_size s) (resume_at s) (paused s) (write_region s)
    (postponed_exception s) (mime_type s) (ready s) (device s) (frame_size s)
    (sockets s) (invalidations s) (S (available_calls s)) (effects s).

Definition add_effects (fx : list Effect) (s : AlsaInputStream) : AlsaInputStream :=
  mkStream (stream_uri s) (buffer_size s) (resume_at s) (paused s) (write_region s)
    (postponed_exception s) (mime_type s) (ready s) (device s) (frame_size s)
    (sockets s) (invalidations s) (available_calls s) (effects s ++ fx).

Definition IsPaused (s : AlsaInputStream) : bool := paused s.

Definition PrepareWriteBuffer (s : AlsaInputStream) : Z := write_region s.

Definition CommitWriteBuffer (nbytes : Z) (s : AlsaInputStream) : AlsaInputStream :=
  set_write_region (write_region s - nbytes) s.

(** [AlsaInputStream::Pause]: the base class sets its flag, then the
    socket list is invalidated. *)
Definition Pause (s : AlsaInputStream) : AlsaInputStream :=
  InvalidateSockets (set_paused true s).

Definition DoResume (s : AlsaInputStream) : AlsaInputStream :=
  InvalidateSockets (add_effects [Call snd_pcm_resume] s).

(** [non_block] stands for what [non_block.PrepareSockets] would
    register: the descriptors and the timeout. *)
Definition PrepareSockets (non_block : list Z * Z) (s : AlsaInputStream)
  : Z * AlsaInputStream :=
  if IsPaused s then (-1, set_sockets [] s)
  else (snd non_block, set_sockets (fst non_block) s).

(** *** [AlsaInputStream::DispatchSockets] *)

(** One round of the read loop as the device answers it: the result of
    [snd_pcm_readi] and, should [Recover] run, the state and the replies
    it meets. *)
Record ReadAttempt : Type := mkAttempt {
  readi_reply : Z;
  pcm_state : snd_pcm_state_t;
  replies : PcmReplies
}.

(** [non_block_error] is the exception [non_block.DispatchSockets]
    throws, if any; [script] the answers of the device, round by round.
    Behind the end of the script the non-blocking device has nothing to
    deliver and [snd_pcm_readi] says [-EAGAIN]. *)
Record DispatchEnv : Type := mkDispatchEnv {
  non_block_error : option exn;
  script : list ReadAttempt
}.

(** The [catch (...)] handler. *)
Definition catch_all (e : exn) (s : AlsaInputStream) : AlsaInputStream :=
  InvokeOnAvailable (set_postponed_exception e s).

Fixpoint read_loop (script : list ReadAttempt) (w_frames : Z) (s : AlsaInputStream)
  : AlsaInputStream :=
  let s1 := add_effects [Call (snd_pcm_readi w_frames)] s in
  match script with
  | [] => s1
  | a :: rest =>
      let n_frames := readi_reply a in
      if n_frames <? 0 then
        if n_frames =? - EAGAIN then s1
        else
          let '(r, fx) := Recover (device s1) n_frames (pcm_state a) (replies a) in
          let s2 := add_effects fx s1 in
          if r <? 0
          then catch_all (runtime_error "PCM error - stream aborted") s2
          else read_loop rest w_frames s2
      else CommitWriteBuffer (n_frames * frame_size s1) s1
  end.

Definition DispatchSockets (env : DispatchEnv) (s : AlsaInputStream) : AlsaInputStream :=
  match non_block_error env with
  | Some e => catch_all e s
  | None =>
      let w := PrepareWriteBuffer s in
      let w_frames := w / frame_size s in
      if w_frames =? 0 then Pause s      (* buffer is full *)
      else read_loop (script env) w_frames s
  end.

(** *** Opening the device *)

(** What the device answers while it is opened, and the bytes an
    unassigned [AudioFormat] happens to hold. *)
Record OpenEnv : Type := mkOpenEnv {
  open_reply : Z;
  configure_reply : option exn;
  indeterminate : AudioFormat
}.

(** [ConfigureCapture] is kept as one step that succeeds or throws. *)
Definition OpenDevice (global_config : global_config_t) (env : OpenEnv)
  (device : string) : option exn * list Effect :=
  let opened := Call (snd_pcm_open device (Z.lor SND_PCM_NONBLOCK (mode global_config))) in
  let err := open_reply env in
  if err <? 0
  then (Some (alsa_error err (String.append "Failed to open device " device)), [opened])
  else
    match configure_reply env with
    | Some e => (Some e, [opened; Call snd_pcm_configure; Call snd_pcm_close])
    | None => (None, [opened; Call snd_pcm_configure; Call snd_pcm_prepare])
    end.

(** The outcome of [Create]: the null pointer ("not this plugin"), an
    exception together with what had been done to the device by then,
    or the stream. *)
Inductive Created : Type :=
| Nullptr
| Threw (e : exn) (done : list Effect)
| Made (s : AlsaInputStream).

(** The constructor of [AlsaInputStream]. *)
Definition AlsaInputStream_new (global_config : global_config_t) (env : OpenEnv)
  (spec : SourceSpec) : Created :=
  let af := GetAudioFormat (indeterminate env) spec in
  let dev := default EmptyString (GetDeviceName spec) in
  match OpenDevice global_config env dev with
  | (Some e, fx) => Threw e fx
  | (None, fx) =>
      Made {| stream_uri := GetURI spec;
              buffer_size := TimeToSize af DEFAULT_BUFFER_TIME;
              resume_at := TimeToSize af DEFAULT_RESUME_TIME;
              paused := false;
              write_region := TimeToSize af DEFAULT_BUFFER_TIME;
              postponed_exception := None;
              mime_type := Some (String.append "audio/x-mpd-alsa-pcm;format="
                                   (default EmptyString (GetFormatString spec)));
              ready := true;
              device := dev;
              frame_size := GetFrameSize af;
              sockets := [];
              invalidations := 1;
              available_calls := 0;
              effects := fx ++ [Call snd_pcm_start] |}
  end.

Definition Create (global_config : global_config_t) (env : OpenEnv) (_uri : string)
  : Created :=
  match SourceSpec_new global_config _uri with
  | inl e => Threw e []
  | inr spec =>
      if negb (IsValidScheme spec) then Nullptr
      else AlsaInputStream_new global_config env spec
  end.

(** What a call of [Create] did to the device. *)
Definition device_effects (c : Created) : list PcmCall :=
  match c with
  | Nullptr => []
  | Threw _ fx => pcm_calls fx
  | Made s => pcm_calls (effects s)
  end.

End Externals.

Arguments mkSpec {AudioFormat}.
Arguments uri {AudioFormat}.
Arguments device_name {AudioFormat}.
Arguments format_string {AudioFormat}.
Arguments audio_format {AudioFormat}.
Arguments IsValidScheme {AudioFormat}.
Arguments IsValid {AudioFormat}.
Arguments GetURI {AudioFormat}.
Arguments GetDeviceName {AudioFormat}.
Arguments GetFormatString {AudioFormat}.
Arguments GetAudioFormat {AudioFormat}.
Arguments SourceSpec_new {AudioFormat}.
Arguments mkOpenEnv {AudioFormat}.
Arguments open_reply {AudioFormat}.
Arguments configure_reply {AudioFormat}.
Arguments indeterminate {AudioFormat}.
Arguments OpenDevice {AudioFormat}.
Arguments AlsaInputStream_new {AudioFormat}.
Arguments Create {AudioFormat}.

End Alsa.

(** ** An instance of the collaborators

    A small audio format type with a parser for the [rate:bits:channels]
    strings used in the examples, to run the model on concrete
    identifiers. *)

Module AlsaExample.

Record AudioFormat : Type := mkFormat {
  sample_rate : Z;
  bits : Z;
  channels : Z
}.

Definition ParseAudioFormat (s : string) : exn + AudioFormat :=
  if String.eqb s "48000:16:2" then inr (mkFormat 48000 16 2)
  else if String.eqb s "44100:16:2" then inr (mkFormat 44100 16 2)
  else if String.eqb s "44100:24:1" then inr (mkFormat 44100 24 1)
  else inl (runtime_error "Failed to parse audio format").

Definition GetFrameSize (af : AudioFormat) : Z := (bits af / 8) * channels af.

Definition TimeToSize (af : AudioFormat) (ms : Z) : Z :=
  (sample_rate af * ms / 1000) * GetFrameSize af.

Definition get_bool (s : string) : exn + bool :=
  if String.eqb s "yes" then inr true
  else if String.eqb s "no" then inr false
  else inl (runtime_error "not a boolean value").

(** A stream as [Create] leaves it for 16 bit stereo, with three bytes
    of room left in its buffer. *)
Definition nearly_full : Alsa.AlsaInputStream :=
  {| Alsa.stream_uri := "alsa://hw:0";
     Alsa.buffer_size := 192000;
     Alsa.resume_at := 96000;
     Alsa.paused := false;
     Alsa.write_region := 3;
     Alsa.postponed_exception := None;
     Alsa.mime_type := Some "audio/x-mpd-alsa-pcm;format=48000:16:2";
     Alsa.ready := true;
     Alsa.device := "hw:0";
     Alsa.frame_size := 4;
     Alsa.sockets := [7];
     Alsa.invalidations := 1;
     Alsa.available_calls := 0;
     Alsa.effects := [] |}.

Definition quiet : Alsa.DispatchEnv :=
  {| Alsa.non_block_error := None; Alsa.script := [] |}.

(** A configuration block naming a device and a format, and the
    configuration [alsa_input_init] derives from it. *)
Definition block : Alsa.ConfigBlock :=
  {[ "default_device" := "hw:1"; "default_format" := "44100:16:2" ]}.

Definition configured : Alsa.global_config_t :=
  {| Alsa.default_device := Some "hw:1";
     Alsa.default_format := Some "44100:16:2";
     Alsa.mode := 0 |}.

(** A device that lets itself be opened and configured. *)
Definition willing : Alsa.OpenEnv AudioFormat :=
  Alsa.mkOpenEnv 0 None (mkFormat 0 0 0).

(** A device that cannot be opened ([-ENOENT]), and one that refuses
    the configuration. *)
Definition absent : Alsa.OpenEnv AudioFormat :=
  Alsa.mkOpenEnv (-2) None (mkFormat 0 0 0).

Definition picky : Alsa.OpenEnv AudioFormat :=
  Alsa.mkOpenEnv 0 (Some (alsa_error (-22) "Cannot set sample rate"))
    (mkFormat 0 0 0).

(** A block that switches the resampling off. *)
Definition no_resample : Alsa.ConfigBlock :=
  {[ "auto_resample" := "no" ]}.

End AlsaExample.

(** ** The negotiation of the hardware parameters

    [AlsaInputStream::ConfigureCapture], call by call.  The function
    threads one error code through a long run of libasound calls and
    throws at the first one that fails: a small monad keeps the trace
    of the calls and the exception. *)

Module AlsaHw.

(** The calls of [ConfigureCapture], with the values it passes, and its
    three debug lines. *)
Inductive HwCall : Type :=
| hw_params_any
| hw_params_set_access
| hw_params_set_format (format : Z)
| hw_params_set_channels (channels : Z)
| hw_params_set_rate (rate : Z)
| hw_params_get_buffer_range
| hw_params_get_period_range
| hw_params_set_buffer_time_near (buffer_time : Z)
| hw_params_get_buffer_size
| hw_params_set_period_size_near (period_size : Z)
| hw_params_install                      (* snd_pcm_hw_params *)
| hw_params_get_period_size
| sw_params_current
| sw_params_install                      (* snd_pcm_sw_params *)
| debug_buffer (size_min size_max time_min time_max : Z)
| debug_period (size_min size_max time_min time_max : Z)
| debug_sizes (buffer_size period_size : Z).

(** What libasound answers: the return value of every call that is
    checked, and what the queried variables hold afterwards. *)
Record HwReplies : Type := mkHwReplies {
  any_reply : Z;
  access_reply : Z;
  format_reply : Z;
  channels_reply : Z;
  rate_reply : Z;
  buffer_size_min : Z;
  buffer_size_max : Z;
  buffer_time_min : Z;
  buffer_time_max : Z;
  period_size_min : Z;
  period_size_max : Z;
  period_time_min : Z;
  period_time_max : Z;
  buffer_time_reply : Z;
  buffer_size_reply : Z;       (* the first snd_pcm_hw_params_get_buffer_size *)
  buffer_size : Z;
  period_size_reply : Z;
  install_reply : Z;
  alsa_buffer_size_reply : Z;  (* the second one *)
  alsa_buffer_size : Z;
  alsa_period_size_reply : Z;
  alsa_period_size : Z;
  sw_reply : Z
}.

(** A computation that makes calls and may throw. *)
Definition Hw (A : Type) : Type := list HwCall -> (exn + A) * list HwCall.

Definition hw_ret {A : Type} (a : A) : Hw A := fun trace => (inr a, trace).

Definition hw_bind {A B : Type} (c : Hw A) (k : A -> Hw B) : Hw B :=
  fun trace =>
    match c trace with
    | (inl e, trace') => (inl e, trace')
    | (inr a, trace') => k a trace'
    end.

Definition hw_call (c : HwCall) : Hw unit := fun trace => (inr tt, trace ++ [c]).

Definition hw_throw {A : Type} (e : exn) : Hw A := fun trace => (inl e, trace).

Declare Scope hw_scope.
Delimit Scope hw_scope with hw.
Notation "c1 ;; c2" := (hw_bind c1 (fun _ => c2))
  (at level 100, c2 at level 200, right associativity) : hw_scope.

(** A call whose result is tested: [if ((err = f(...)) < 0) throw
    Alsa::MakeError(err, msg)]. *)
Definition hw_checked (c : HwCall) (err : Z) (msg : string) : Hw unit :=
  (hw_call c ;;
   if err <? 0 then hw_throw (alsa_error err msg) else hw_ret tt)%hw.

(** The buffer time asked for: the maximum, cut at two seconds. *)
Definition chosen_buffer_time (r : HwReplies) : Z :=
  if 2000000 <? buffer_time_max r then 2000000 else buffer_time_max r.

(** [format], [channels] and [sample_rate] are what the audio format
    gives for the three setters (the format already as libasound's). *)
Definition ConfigureCapture_steps (format channels sample_rate : Z) (r : HwReplies)
  : Hw unit :=
  (hw_checked hw_params_any (any_reply r) "snd_pcm_hw_params_any() failed" ;;
  hw_checked hw_params_set_access (access_reply r)
    "snd_pcm_hw_params_set_access() failed" ;;
  hw_checked (hw_params_set_format format) (format_reply r)
    "Cannot set sample format" ;;
  hw_checked (hw_params_set_channels channels) (channels_reply r)
    "Cannot set channels" ;;
  hw_checked (hw_params_set_rate sample_rate) (rate_reply r)
    "Cannot set sample rate" ;;
  hw_call hw_params_get_buffer_range ;;
  hw_call (debug_buffer (buffer_size_min r) (buffer_size_max r)
             (buffer_time_min r) (buffer_time_max r)) ;;
  hw_call hw_params_get_period_range ;;
  hw_call (debug_period (period_size_min r) (period_size_max r)
             (period_time_min r) (period_time_max r)) ;;
  hw_checked (hw_params_set_buffer_time_near (chosen_buffer_time r))
    (buffer_time_reply r) "Cannot set buffer time" ;;
  hw_call hw_params_get_buffer_size ;;
  (if buffer_size_reply r =? 0
   then hw_checked (hw_params_set_period_size_near (buffer_size r / 4))
          (period_size_reply r) "Cannot set period size"
   else hw_ret tt) ;;
  hw_checked hw_params_install (install_reply r) "snd_pcm_hw_params() failed" ;;
  hw_checked hw_params_get_buffer_size (alsa_buffer_size_reply r)
    "snd_pcm_hw_params_get_buffer_size() failed" ;;
  hw_checked hw_params_get_period_size (alsa_period_size_reply r)
    "snd_pcm_hw_params_get_period_size() failed" ;;
  hw_call (debug_sizes (alsa_buffer_size r) (alsa_period_size r)) ;;
  hw_call sw_params_current ;;
  hw_checked sw_params_install (sw_reply r) "snd_pcm_sw_params() failed")%hw.

(** The exception thrown, if any, and the calls made. *)
Definition ConfigureCapture (format channels sample_rate : Z) (r : HwReplies)
  : option exn * list HwCall :=
  match ConfigureCapture_steps format channels sample_rate r [] with
  | (inl e, trace) => (Some e, trace)
  | (inr _, trace) => (None, trace)
  end.

(** The tested calls in the order of the source, each with its result
    and the message of its exception; the period size is only set when
    the buffer size could be read. *)
Definition checked_replies (r : HwReplies) : list (Z * string) :=
  [ (any_reply r, "snd_pcm_hw_params_any() failed");
    (access_reply r, "snd_pcm_hw_params_set_access() failed");
    (format_reply r, "Cannot set sample format");
    (channels_reply r, "Cannot set channels");
    (rate_reply r, "Cannot set sample rate");
    (buffer_time_reply r, "Cannot set buffer time") ]
  ++ (if buffer_size_reply r =? 0
      then [(period_size_reply r, "Cannot set period size")] else [])
  ++ [ (install_reply r, "snd_pcm_hw_params() failed");
       (alsa_buffer_size_reply r, "snd_pcm_hw_params_get_buffer_size() failed");
       (alsa_period_size_reply r, "snd_pcm_hw_params_get_period_size() failed");
       (sw_reply r, "snd_pcm_sw_params() failed") ].

Definition first_failure (steps : list (Z * string)) : option exn :=
  match List.find (fun step => step.1 <? 0) steps with
  | Some (err, msg) => Some (alsa_error err msg)
  | None => None
  end.


End AlsaHw.

(** ** Paths in the configuration ([config/Path.cxx]) *)

Module ConfigPath.
Import Util.

(** The exceptions of this file, one constructor per [throw]:
    "no such user", "problems getting home for current user",
    "environment variable not supported", "not an absolute path".
    [Utf8Error] stands for whatever [AllocatedPath::FromUTF8Throw]
    throws. *)
Inductive PathError : Type :=
| NoSuchUser (user : string)
| NoHomeForCurrentUser
| EnvNotSupported (env_var : string)
| NotAbsolute (path : string)
| Utf8Error (path : string_view).

(** How the file is built: with [_WIN32], with [USE_XDG]; and, since
    C++ leaves it open, whether the left operand of [/] is evaluated
    before the right one. *)
Record Build : Type := mkBuild {
  win32 : bool;
  use_xdg : bool;
  left_first : bool
}.

Section Externals.

(** Collaborators outside the sources at hand: the path type with its
    null test and its [/], the conversion from UTF-8, the test for
    absolute paths, and the directories the system reports. *)
Variable AllocatedPath : Type.
Variable IsNull : AllocatedPath -> bool.
Variable join : AllocatedPath -> AllocatedPath -> AllocatedPath.
Variable FromUTF8Throw : string_view -> PathError + AllocatedPath.
Variable IsAbsolute : string -> bool.
Variable GetHomeDir_of : string -> AllocatedPath.
Variable GetHomeDir : AllocatedPath.
Variable GetUserConfigDir : AllocatedPath.
Variable GetUserMusicDir : AllocatedPath.
Variable GetUserCacheDir : AllocatedPath.
Variable GetUserRuntimeDir : AllocatedPath.

Variable build : Build.

(** The static [configured_user]; [None] is [nullptr]. *)
Variable configured_user : option string.

(** [GetHome(const char *user)]. *)
Definition GetHome_of (user : string) : PathError + AllocatedPath :=
  let result := GetHomeDir_of user in
  if IsNull result then inl (NoSuchUser user) else inr result.

(** [GetHome()]. *)
Definition GetHome : PathError + AllocatedPath :=
  let result := GetHomeDir in
  if IsNull result then inl NoHomeForCurrentUser else inr result.

Definition GetConfiguredHome : PathError + AllocatedPath :=
  match configured_user with
  | Some user => GetHome_of user
  | None => GetHome
  end.

(** [a / b] for two operands that may throw, in the order the build
    evaluates them. *)
Definition join_throwing (a b : PathError + AllocatedPath)
  : PathError + AllocatedPath :=
  if left_first build then
    match a with
    | inl e => inl e
    | inr x => match b with inl e => inl e | inr y => inr (join x y) end
    end
  else
    match b with
    | inl e => inl e
    | inr y => match a with inl e => inl e | inr x => inr (join x y) end
    end.

(** The directory a [$] variable stands for; [None] for a variable the
    function does not support.  The home directory may throw, the
    others are taken as the system reports them. *)
Definition xdg_directory (env_var : string) : option (PathError + AllocatedPath) :=
  if String.eqb env_var "HOME" then Some GetConfiguredHome
  else if String.eqb env_var "XDG_CONFIG_HOME" then Some (inr GetUserConfigDir)
  else if String.eqb env_var "XDG_MUSIC_DIR" then Some (inr GetUserMusicDir)
  else if String.eqb env_var "XDG_CACHE_HOME" then Some (inr GetUserCacheDir)
  else if String.eqb env_var "XDG_RUNTIME_DIR" then Some (inr GetUserRuntimeDir)
  else None.

(** The last branch: an absolute path is converted, anything else
    refused. *)
Definition ParsePath_plain (path : string) : PathError + AllocatedPath :=
  if negb (IsAbsolute path) then inl (NotAbsolute path)
  else FromUTF8Throw (Some path).

(** [path] is not null (the function asserts it). *)
Definition ParsePath (path : string) : PathError + AllocatedPath :=
  if win32 build then FromUTF8Throw (Some path)
  else
    match path with
    | String "~" EmptyString => GetConfiguredHome
    | String "~" (String "/" rest) =>
        join_throwing GetConfiguredHome (FromUTF8Throw (Some rest))
    | String "~" after_tilde =>
        let '(user, rest) := Split after_tilde "/" in
        join_throwing (GetHome_of user) (FromUTF8Throw rest)
    | String "$" after_dollar =>
        if use_xdg build then
          let '(env_var, rest) := Split after_dollar "/" in
          match xdg_directory env_var with
          | None => inl (EnvNotSupported env_var)
          | Some (inl e) => inl e
          | Some (inr xdg_path) =>
              match FromUTF8Throw rest with
              | inl e => inl e
              | inr p => inr (join xdg_path p)
              end
          end
        else ParsePath_plain path
    | _ => ParsePath_plain path
    end.

End Externals.

End ConfigPath.

(** An instance of the collaborators of [ConfigPath]: paths are
    strings, the empty one is the null path, every string converts,
    and two users have a home. *)

Module PathExample.

Definition AllocatedPath : Type := string.

Definition IsNull (p : AllocatedPath) : bool := String.eqb p "".

Definition join (a b : AllocatedPath) : AllocatedPath :=
  String.append a (String.append "/" b).

Definition FromUTF8Throw (p : Util.string_view)
  : ConfigPath.PathError + AllocatedPath :=
  inr (default EmptyString p).

Definition IsAbsolute (p : string) : bool :=
  match p with
  | String "/" _ => true
  | _ => false
  end.

Definition GetHomeDir_of (user : string) : AllocatedPath :=
  if String.eqb user "mpd" then "/var/lib/mpd"
  else if String.eqb user "max" then "/home/max"
  else "".

Definition posix : ConfigPath.Build :=
  {| ConfigPath.win32 := false; ConfigPath.use_xdg := true;
     ConfigPath.left_first := false |}.

Definition ParsePath (configured_user : option string) (path : string)
  : ConfigPath.PathError + AllocatedPath :=
  ConfigPath.ParsePath AllocatedPath IsNull join FromUTF8Throw IsAbsolute
    GetHomeDir_of "/home/max" "/home/max/.config" "/home/max/Music"
    "/home/max/.cache" "/run/user/1000" posix configured_user path.

End PathExample.

(** * Properties *)

Import Util.

(** ** The field extractor *)

Section QobuzFacts.
Import Qobuz.

(** No callback ever asks yajl to stop. *)
Lemma dispatch_ok e p : (dispatch e p).1 = true.
Proof.
  destruct e; simpl; try done.
  - unfold Integer. destruct (state p); try done. by destruct (0 <? value).
  - unfold String_. destruct (state p); try done;
      by destruct (map_depth p =? _).
  - unfold MapKey.
    destruct (map_depth p) as [|[[]|[]|]|]; try done;
      destruct (state p); try done;
      repeat (match goal with |- context [String.eqb ?a ?b] =>
                destruct (String.eqb a b) end); done.
Qed.

(** Only map starts and map ends move [map_depth]. *)
Lemma Integer_depth v p : map_depth (Integer v p).2 = map_depth p.
Proof.
  unfold Integer. destruct (state p); try done. by destruct (0 <? v).
Qed.

Lemma String_depth v p : map_depth (String_ v p).2 = map_depth p.
Proof.
  unfold String_. destruct (state p); try done; by destruct (map_depth p =? _).
Qed.

Lemma MapKey_depth k p : map_depth (MapKey k p).2 = map_depth p.
Proof.
  unfold MapKey.
  destruct (map_depth p) as [|[[]|[]|]|] eqn:E; try done;
    destruct (state p); simpl; try done;
    repeat (match goal with |- context [String.eqb ?a ?b] =>
              destruct (String.eqb a b) end); simpl; done.
Qed.

Lemma StartMap_depth p : map_depth (StartMap p).2 = (map_depth p + 1) mod 2 ^ 32.
Proof. done. Qed.

Lemma EndMap_depth p : map_depth (EndMap p).2 = (map_depth p - 1) mod 2 ^ 32.
Proof.
  unfold EndMap.
  destruct (map_depth p) as [|[[]|[]|]|] eqn:E; simpl; rewrite ?E; try done.
  destruct (state p); simpl; by rewrite E.
Qed.

Lemma dispatch_depth e p :
  0 <= map_depth p < 2 ^ 32 ->
  map_depth (dispatch e p).2 = (map_depth p + net_depth [e]) mod 2 ^ 32.
Proof.
  intros Hp.
  destruct e; unfold dispatch, net_depth;
    rewrite ?Integer_depth, ?String_depth, ?MapKey_depth, ?EndMap_depth,
      ?StartMap_depth;
    first [ rewrite Z.add_0_r, Z.mod_small by done; reflexivity
          | f_equal; lia ].
Qed.

Lemma net_depth_cons e evs : net_depth (e :: evs) = net_depth [e] + net_depth evs.
Proof. destruct e; simpl; lia. Qed.

(** Feeding never fails, whatever the events and the parser. *)
Lemma feed_total evs : forall p,
  0 <= map_depth p < 2 ^ 32 ->
  exists p', feed evs p = Some p' /\
             map_depth p' = (map_depth p + net_depth evs) mod 2 ^ 32.
Proof.
  induction evs as [|e evs IH]; intros p Hp.
  - exists p. split; [done|]. rewrite Z.add_0_r. by rewrite Z.mod_small.
  - pose proof (dispatch_ok e p) as Hok.
    pose proof (dispatch_depth e p Hp) as Hd.
    cbn [feed]. destruct (dispatch e p) as [ok p1]. cbn [fst snd] in Hok, Hd. subst ok.
    destruct (IH p1) as (p2 & Hfeed & Hdepth).
    { rewrite Hd. apply Z.mod_pos_bound. reflexivity. }
    exists p2. split; [done|].
    rewrite Hdepth, Hd, (net_depth_cons e evs).
    rewrite Zplus_mod_idemp_l. f_equal. lia.
Qed.

(** A string is committed only in a terminal state met at its depth. *)
Lemma String_commit_guard v p :
  tag (String_ v p).2 <> tag p ->
  terminal_depth (state p) = Some (map_depth p) /\ state p <> DURATION.
Proof.
  unfold String_. intros H.
  destruct (state p); cbn [snd] in H; try done;
    match type of H with context [?a =? ?b] =>
      destruct (Z.eqb_spec a b) as [E|E] end;
    cbn [snd terminal_depth] in *; try done;
    by rewrite E.
Qed.

(** An integer is committed in state [DURATION] when it is positive;
    [map_depth] is not looked at. *)
Lemma Integer_commit v p :
  state p = DURATION -> 0 < v ->
  Integer v p = (true, set_tag (SetDuration (FromS (to_unsigned v)) (tag p)) p).
Proof.
  intros Hst Hv. unfold Integer. rewrite Hst.
  by destruct (Z.ltb_spec 0 v); [|lia].
Qed.

(** C3 (the code at the failing input): in
    [{"duration":{"x":5}}] the integer sits at depth 2; the path state is
    still [DURATION] there, and [Integer] records the value as the
    duration although the field is expected at depth 1.  [String] would
    have compared the depth (lemma [String_commit_guard]). *)
Theorem Integer_commits_below_depth_1 :
  let p := {| state := DURATION; map_depth := 2; tag := TagBuilder_new |} in
  feed [EvStartMap; EvMapKey "duration"; EvStartMap; EvMapKey "x"] ResponseParser_new
    = Some p /\
  terminal_depth (state p) = Some 1 /\
  map_depth p = 2 /\
  (Integer 5 p).2 = {| state := DURATION; map_depth := 2;
                       tag := {| duration := FromS 5; items := [] |} |} /\
  (GetTag <$> feed [EvStartMap; EvMapKey "duration"; EvStartMap; EvMapKey "x";
                    EvInteger 5; EvEndMap; EvEndMap] ResponseParser_new)
    = Some {| duration := FromS 5; items := [] |}.
Proof. repeat split; vm_compute; reflexivity. Qed.

(** C4: for the events of
    [{"title":T,"composer":{"name":C},"album":{"title":A,"artist":{"name":AA}},"duration":187}]
    the record holds exactly title=T, composer=C, album=A,
    album_artist=AA, in this order, and a duration of 187 seconds; with
    a duration of -5 the items are the same and no duration is
    recorded. *)
Theorem track_events_record (T C A AA : string) :
  GetTag <$> feed (track_events T C A AA 187) ResponseParser_new
    = Some {| duration := FromS 187;
              items := [(TAG_TITLE, T); (TAG_COMPOSER, C);
                        (TAG_ALBUM, A); (TAG_ALBUM_ARTIST, AA)] |} /\
  GetTag <$> feed (track_events T C A AA (-5)) ResponseParser_new
    = Some {| duration := Negative;
              items := [(TAG_TITLE, T); (TAG_COMPOSER, C);
                        (TAG_ALBUM, A); (TAG_ALBUM_ARTIST, AA)] |}.
Proof. split; reflexivity. Qed.

(** The callbacks by themselves have no way to refuse an event: left
    alone with a stray map end they let the unsigned counter wrap. *)
Lemma extra_exit_accepted :
  extra_exit 0 [EvEndMap] = true /\
  feed [EvEndMap] ResponseParser_new
    = Some {| state := NONE; map_depth := 4294967295; tag := TagBuilder_new |} /\
  (GetTag <$> feed [EvEndMap] ResponseParser_new) = Some TagBuilder_new.
Proof. repeat split; vm_compute; reflexivity. Qed.

(** All callbacks return [true] on every event, and [map_depth] is the
    number of map starts minus the number of map ends modulo
    [2^32]. *)
Lemma feed_never_fails (evs : list Event) :
  Forall (fun e => forall p, (dispatch e p).1 = true) evs /\
  exists p, feed evs ResponseParser_new = Some p /\
            map_depth p = net_depth evs mod 2 ^ 32 /\
            0 <= map_depth p < 2 ^ 32.
Proof.
  split.
  - apply Forall_forall. intros e _ p. apply dispatch_ok.
  - destruct (feed_total evs ResponseParser_new) as (p & Hfeed & Hdepth);
      [simpl; lia|].
    exists p. simpl in Hdepth. rewrite Hdepth.
    split; [done|]. split; [done|]. apply Z.mod_pos_bound. reflexivity.
Qed.

(** *** The parse with its nesting check *)

Lemma yajl_run_cons e evs stack p :
  yajl_run (e :: evs) stack p =
  match yajl_accept e stack with
  | None => inl MalformedStructureError
  | Some stack' => yajl_run evs stack' (dispatch e p).2
  end.
Proof.
  cbn [yajl_run]. destruct (yajl_accept e stack); [|done].
  pose proof (dispatch_ok e p) as Hok.
  destruct (dispatch e p) as [ok p1]. cbn [fst snd] in *. by subst ok.
Qed.

Lemma after_value_frames stack stack' :
  after_value stack = Some stack' -> map_frames stack' = map_frames stack.
Proof.
  unfold after_value. destruct stack as [|[] below]; try done; by intros [= <-].
Qed.

(** A map start opens one map, a map end closes one, and only where
    one is open; no other event changes the number of open maps. *)
Lemma yajl_accept_frames e stack stack' :
  yajl_accept e stack = Some stack' ->
  Z.of_nat (map_frames stack') = Z.of_nat (map_frames stack) + net_depth [e].
Proof.
  destruct e; cbn [yajl_accept net_depth];
    try (intros H; apply after_value_frames in H; lia).
  - destruct (after_value stack) as [s1|] eqn:Hs; [|done].
    intros [= <-]. apply after_value_frames in Hs. cbn [map_frames]. lia.
  - destruct stack as [|[] below]; try done. intros [= <-]. cbn [map_frames]. lia.
  - destruct stack as [|[] below]; try done. intros [= <-]. cbn [map_frames]. lia.
  - destruct (after_value stack) as [s1|] eqn:Hs; [|done].
    intros [= <-]. apply after_value_frames in Hs. cbn [map_frames]. lia.
  - destruct stack as [|[] below]; try done. intros [= <-]. cbn [map_frames]. lia.
Qed.

(** A map end without a map that is open ends the parse. *)
Lemma extra_exit_refused evs : forall stack p,
  extra_exit (map_frames stack) evs = true ->
  yajl_run evs stack p = inl MalformedStructureError.
Proof.
  induction evs as [|e evs IH]; intros stack p Hextra; [done|].
  rewrite yajl_run_cons.
  destruct (yajl_accept e stack) as [stack'|] eqn:Hacc; [|done].
  apply IH.
  pose proof (yajl_accept_frames e stack stack' Hacc) as Hframes.
  destruct e; cbn [extra_exit net_depth] in *;
    try (replace (map_frames stack') with (map_frames stack) by lia; exact Hextra).
  - replace (map_frames stack') with (S (map_frames stack)) by lia. exact Hextra.
  - destruct (map_frames stack) as [|o] eqn:Ho; [lia|].
    replace (map_frames stack') with o by lia. exact Hextra.
Qed.

(** A parse that goes through has run exactly the callbacks of
    [feed]. *)
Lemma yajl_run_feed evs : forall stack p p',
  yajl_run evs stack p = inr p' -> feed evs p = Some p'.
Proof.
  induction evs as [|e evs IH]; intros stack p p'.
  - cbn. destruct stack as [|[] [|]]; try done. by intros [= ->].
  - rewrite yajl_run_cons.
    destruct (yajl_accept e stack) as [stack'|]; [|done].
    intros H. apply IH in H. cbn [feed].
    pose proof (dispatch_ok e p) as Hok.
    destruct (dispatch e p) as [ok p1]. cbn [fst snd] in *. by subst ok.
Qed.

(** In a parse that goes through, no prefix closes more maps than are
    open, and all maps are closed at the end. *)
Lemma yajl_run_prefix pre : forall suf stack p p',
  yajl_run (pre ++ suf) stack p = inr p' ->
  0 <= Z.of_nat (map_frames stack) + net_depth pre.
Proof.
  induction pre as [|e pre IH]; intros suf stack p p' Hrun.
  - cbn [net_depth]. lia.
  - rewrite <- app_comm_cons, yajl_run_cons in Hrun.
    destruct (yajl_accept e stack) as [stack'|] eqn:Hacc; [|done].
    apply IH in Hrun. apply yajl_accept_frames in Hacc.
    rewrite (net_depth_cons e pre). lia.
Qed.

Lemma yajl_run_balanced evs : forall stack p p',
  yajl_run evs stack p = inr p' ->
  Z.of_nat (map_frames stack) + net_depth evs = 0.
Proof.
  induction evs as [|e evs IH]; intros stack p p' Hrun.
  - cbn in Hrun. by destruct stack as [|[] [|]].
  - rewrite yajl_run_cons in Hrun.
    destruct (yajl_accept e stack) as [stack'|] eqn:Hacc; [|done].
    apply IH in Hrun. apply yajl_accept_frames in Hacc.
    rewrite (net_depth_cons e evs). lia.
Qed.

(** C5: a token sequence in which some map end has no map start before
    it that is still open is refused: the parse ends with
    MalformedStructureError, no parser is left to take a record from,
    and the handler is told the error and receives no record.  Put the
    other way round: when the parse goes through, the number of open
    maps never fell below zero, after every prefix [map_depth] is that
    number (the unsigned counter was never decremented at zero), and at
    the end it is zero again. *)
Theorem unmatched_map_end_is_refused (evs : list Event) :
  (extra_exit 0 evs = true ->
   yajl_parse evs ResponseParser_new = inl MalformedStructureError /\
   forall headers,
     MakeParser 200 headers = inr (MkResponseParser ResponseParser_new) ->
     OnResponse 200 headers evs = [OnRemoteTagError MalformedStructureError]) /\
  (forall p,
     yajl_parse evs ResponseParser_new = inr p ->
     extra_exit 0 evs = false /\
     map_depth p = 0 /\
     forall pre suf,
       evs = pre ++ suf ->
       0 <= net_depth pre /\
       exists q, feed pre ResponseParser_new = Some q /\
                 map_depth q = net_depth pre mod 2 ^ 32).
Proof.
  split.
  - intros Hextra.
    assert (Hparse : yajl_parse evs ResponseParser_new = inl MalformedStructureError)
      by (by apply extra_exit_refused).
    split; [exact Hparse|].
    intros headers HM. unfold OnResponse. by rewrite HM, Hparse.
  - intros p Hparse. unfold yajl_parse in Hparse. split; [|split].
    + destruct (extra_exit 0 evs) eqn:Hextra; [|done].
      by rewrite (extra_exit_refused evs [RootStart] ResponseParser_new) in Hparse.
    + pose proof (yajl_run_balanced _ _ _ _ Hparse) as Hbal.
      apply yajl_run_feed in Hparse.
      destruct (feed_total evs ResponseParser_new) as (p1 & Hfeed & Hdepth);
        [simpl; lia|].
      rewrite Hfeed in Hparse. injection Hparse as <-.
      rewrite Hdepth. cbn [map_frames map_depth ResponseParser_new] in *.
      by replace (net_depth evs) with 0 by lia.
    + intros pre suf ->.
      pose proof (yajl_run_prefix _ _ _ _ _ Hparse) as Hpre.
      cbn [map_frames] in Hpre. split; [lia|].
      destruct (feed_total pre ResponseParser_new) as (q & Hfeed & Hdepth);
        [simpl; lia|].
      exists q. split; [done|]. exact Hdepth.
Qed.

Lemma unmatched_map_end_is_refused_witness :
  let stray := [EvStartMap; EvMapKey "title"; EvString "T"; EvEndMap; EvEndMap] in
  let whole := track_events "T" "C" "A" "AA" 187 in
  (extra_exit 0 stray = true /\
   yajl_parse stray ResponseParser_new = inl MalformedStructureError) /\
  (yajl_parse whole ResponseParser_new
     = inr {| state := DURATION; map_depth := 0;
              tag := {| duration := FromS 187;
                        items := [(TAG_TITLE, "T"); (TAG_COMPOSER, "C");
                                  (TAG_ALBUM, "A"); (TAG_ALBUM_ARTIST, "AA")] |} |} /\
   extra_exit 0 whole = false).
Proof.
  intros stray whole. split.
  - assert (H : extra_exit 0 stray = true) by reflexivity.
    split; [exact H|].
    exact (proj1 (proj1 (unmatched_map_end_is_refused stray) H)).
  - assert (H : yajl_parse whole ResponseParser_new
               = inr {| state := DURATION; map_depth := 0;
                        tag := {| duration := FromS 187;
                                  items := [(TAG_TITLE, "T"); (TAG_COMPOSER, "C");
                                            (TAG_ALBUM, "A");
                                            (TAG_ALBUM_ARTIST, "AA")] |} |})
      by reflexivity.
    split; [exact H|].
    exact (proj1 (proj2 (unmatched_map_end_is_refused whole) _ H)).
Defined.

(** C10: a key that arrives at map depth 4 or more leaves the parser as
    it is; a key that changes the path state was met at depth 1, 2
    or 3. *)
Theorem MapKey_deep_is_inert (key : string) (p : ResponseParser) :
  (4 <= map_depth p -> MapKey key p = (true, p)) /\
  (state (MapKey key p).2 <> state p -> 1 <= map_depth p <= 3).
Proof.
  split.
  - intros Hd. unfold MapKey.
    destruct (map_depth p) as [|[[]|[]|]|]; try done; lia.
  - intros Hst. unfold MapKey in Hst.
    destruct (map_depth p) as [|[[]|[]|]|]; try done; lia.
Qed.

Lemma MapKey_deep_is_inert_witness :
  let p := {| state := ALBUM_ARTIST; map_depth := 4; tag := TagBuilder_new |} in
  4 <= map_depth p /\ MapKey "name" p = (true, p).
Proof.
  intros p. split; [simpl; lia|].
  apply (proj1 (MapKey_deep_is_inert "name" p)). simpl; lia.
Defined.

(** ** Classifying the response *)

(** Behind a parser from [MakeParser], the handler gets the record the
    callbacks built when the parse went through, and the error of the
    parse when it did not. *)
Lemma OnResponse_json headers body :
  MakeParser 200 headers = inr (MkResponseParser ResponseParser_new) ->
  match yajl_parse body ResponseParser_new with
  | inr rp =>
      feed body ResponseParser_new = Some rp /\
      FinishParser (MkResponseParser rp) = Some [OnRemoteTag (tag rp)] /\
      OnResponse 200 headers body = [OnRemoteTag (tag rp)]
  | inl e => OnResponse 200 headers body = [OnRemoteTagError e]
  end.
Proof.
  intros HM. unfold OnResponse. rewrite HM.
  destruct (yajl_parse body ResponseParser_new) as [e|rp] eqn:Hparse; [done|].
  split; [|done]. by apply yajl_run_feed in Hparse.
Qed.

(** C6: [MakeParser] answers a status other than 200 with the parser
    for structured errors, and the field extractor is not constructed
    (the handler gets the remote error); a 200 response without a
    content type, or with one that has no "/json" in it, raises the
    "not a JSON response" error; a 200 JSON response gets the field
    extractor.  Its body is parsed with the callbacks of the
    extractor: when the parse goes through, [FinishParser] hands the
    handler the record these callbacks have built, items and duration
    as they stand in the parser (for the body of the track example:
    title, composer, album, album artist and 187 seconds); when the
    parse fails, the handler gets the error and no record. *)
Theorem MakeParser_classifies (status : Z) (headers : Headers) :
  (status <> 200 ->
     MakeParser status headers = inr (QobuzErrorParser status headers) /\
     extractor_constructed (MakeParser status headers) = false /\
     forall body, OnResponse status headers body
                  = [OnRemoteTagError (remote_error status)]) /\
  (status = 200 ->
     (Headers_find "content-type" headers = None \/
      exists v, Headers_find "content-type" headers = Some v /\
                contains v "/json" = false) ->
     MakeParser status headers
       = inl (runtime_error "Not a JSON response from Qobuz") /\
     forall body, OnResponse status headers body
                  = [OnRemoteTagError (runtime_error "Not a JSON response from Qobuz")]) /\
  (status = 200 ->
     forall v, Headers_find "content-type" headers = Some v ->
               contains v "/json" = true ->
     MakeParser status headers = inr (MkResponseParser ResponseParser_new) /\
     extractor_constructed (MakeParser status headers) = true /\
     (forall body,
        match yajl_parse body ResponseParser_new with
        | inr rp =>
            feed body ResponseParser_new = Some rp /\
            FinishParser (MkResponseParser rp) = Some [OnRemoteTag (tag rp)] /\
            OnResponse status headers body = [OnRemoteTag (tag rp)]
        | inl e => OnResponse status headers body = [OnRemoteTagError e]
        end) /\
     (forall T C A AA,
        OnResponse status headers (track_events T C A AA 187)
        = [OnRemoteTag {| duration := FromS 187;
                          items := [(TAG_TITLE, T); (TAG_COMPOSER, C);
                                    (TAG_ALBUM, A); (TAG_ALBUM_ARTIST, AA)] |}]) /\
     (forall T, OnResponse status headers [EvStartMap; EvMapKey "title"; EvString T]
                = [OnRemoteTagError MalformedStructureError])).
Proof.
  split; [|split].
  - intros Hst.
    assert (HM : MakeParser status headers = inr (QobuzErrorParser status headers)).
    { unfold MakeParser. by destruct (Z.eqb_spec status 200). }
    split; [done|]. split; [by rewrite HM|].
    intros body. unfold OnResponse. by rewrite HM.
  - intros -> Hct.
    assert (HM : MakeParser 200 headers
                 = inl (runtime_error "Not a JSON response from Qobuz")).
    { unfold MakeParser. cbn [Z.eqb Pos.eqb negb].
      destruct Hct as [->|(v & -> & ->)]; done. }
    split; [done|]. intros body. unfold OnResponse. by rewrite HM.
  - intros -> v Hfind Hjson.
    assert (HM : MakeParser 200 headers = inr (MkResponseParser ResponseParser_new)).
    { unfold MakeParser. cbn [Z.eqb Pos.eqb negb]. by rewrite Hfind, Hjson. }
    split; [done|]. split; [by rewrite HM|].
    split; [|split].
    + intros body. exact (OnResponse_json headers body HM).
    + intros T C A AA. unfold OnResponse. rewrite HM. reflexivity.
    + intros T. unfold OnResponse. rewrite HM. reflexivity.
Qed.

Lemma MakeParser_classifies_witness :
  let json : Headers := {[ "content-type" := ["application/json; charset=utf-8"] ]} in
  let html : Headers := {[ "content-type" := ["text/html"] ]} in
  MakeParser 404 json = inr (QobuzErrorParser 404 json) /\
  MakeParser 200 html = inl (runtime_error "Not a JSON response from Qobuz") /\
  MakeParser 200 ∅ = inl (runtime_error "Not a JSON response from Qobuz") /\
  MakeParser 200 json = inr (MkResponseParser ResponseParser_new) /\
  OnResponse 200 json (track_events "T" "C" "A" "AA" 187)
  = [OnRemoteTag {| duration := FromS 187;
                    items := [(TAG_TITLE, "T"); (TAG_COMPOSER, "C");
                              (TAG_ALBUM, "A"); (TAG_ALBUM_ARTIST, "AA")] |}].
Proof.
  intros json html.
  assert (Hfind : Headers_find "content-type" json
                  = Some "application/json; charset=utf-8") by (vm_compute; reflexivity).
  assert (Hjson : contains "application/json; charset=utf-8" "/json" = true)
    by (vm_compute; reflexivity).
  split; [|split; [|split; [|split]]].
  - apply (proj1 (MakeParser_classifies 404 json)). lia.
  - apply (proj1 (proj2 (MakeParser_classifies 200 html))); [reflexivity|].
    right. exists "text/html". split; vm_compute; reflexivity.
  - apply (proj1 (proj2 (MakeParser_classifies 200 ∅))); [reflexivity|].
    left. vm_compute; reflexivity.
  - exact (proj1 (proj2 (proj2 (MakeParser_classifies 200 json)) eq_refl _
                    Hfind Hjson)).
  - exact (proj1 (proj2 (proj2 (proj2 (proj2 (proj2 (MakeParser_classifies 200 json))
                                               eq_refl _ Hfind Hjson)))) "T" "C" "A" "AA").
Defined.

End QobuzFacts.

(** ** The capture stream *)

Section AlsaStreamFacts.
Import Alsa.

Lemma pcm_calls_app (a b : list Effect) : pcm_calls (a ++ b) = pcm_calls a ++ pcm_calls b.
Proof. unfold pcm_calls. apply omap_app. Qed.

Lemma pcm_calls_call c (fx : list Effect) : pcm_calls (Call c :: fx) = c :: pcm_calls fx.
Proof. reflexivity. Qed.

Lemma pcm_calls_debug msg (fx : list Effect) : pcm_calls (FmtDebug msg :: fx) = pcm_calls fx.
Proof. reflexivity. Qed.

Lemma pcm_calls_nil : pcm_calls [] = [].
Proof. reflexivity. Qed.

Lemma prepare_and_start_spec r :
  (prepare_and_start r).1 = reprepare_result r /\
  pcm_calls (prepare_and_start r).2 = reprepare_calls r.
Proof.
  unfold prepare_and_start, reprepare_result, reprepare_calls.
  by destruct (prepare_reply r =? 0).
Qed.

Ltac recover_cases err :=
  unfold recovered, Recover;
  destruct (err =? - EPIPE); [|destruct (err =? - ESTRPIPE)].

(** C2: the recovery table.  Paused: the device is unpaused and the
    result of that is returned.  Suspended: a resume is attempted; when
    it says [-EAGAIN] the result is 0 and nothing else is done, on any
    other outcome the device is re-prepared as below.  Open, setup,
    xrun: the device is prepared and then started (the start is skipped
    when the prepare failed) and the first failure, or 0, is returned.
    Disconnected: the error code passed in is returned as it is, for
    every error code, and the device is not touched.  Prepared, running,
    draining: the result is 0 and the device is not touched. *)
Theorem Recover_table (device : string) (err : Z) (r : PcmReplies) :
  recovered device err SND_PCM_STATE_PAUSED r
    = (pause_reply r, [snd_pcm_pause 0]) /\
  recovered device err SND_PCM_STATE_SUSPENDED r
    = (if resume_reply r =? - EAGAIN then (0, [snd_pcm_resume])
       else (reprepare_result r, snd_pcm_resume :: reprepare_calls r)) /\
  Forall (fun st => recovered device err st r
                    = (reprepare_result r, reprepare_calls r))
    [SND_PCM_STATE_OPEN; SND_PCM_STATE_SETUP; SND_PCM_STATE_XRUN] /\
  recovered device err SND_PCM_STATE_DISCONNECTED r = (err, []) /\
  Forall (fun st => recovered device err st r = (0, []))
    [SND_PCM_STATE_PREPARED; SND_PCM_STATE_RUNNING; SND_PCM_STATE_DRAINING].
Proof.
  destruct (prepare_and_start_spec r) as [Hres Hcalls].
  repeat first [apply conj | apply List.Forall_cons | apply List.Forall_nil].
  all: recover_cases err.
  all: try destruct (resume_reply r =? - EAGAIN).
  all: try destruct (prepare_and_start r) as [e fx].
  all: cbn [fst snd] in *;
    rewrite ?pcm_calls_app, ?pcm_calls_debug, ?pcm_calls_call, ?pcm_calls_nil,
      ?Hcalls, ?Hres;
    reflexivity.
Qed.

(** [Recover] reporting a failure ends the stream: the drain stores
    the exception for the consumer. *)
Lemma disconnected_is_fatal (s : AlsaInputStream)
  (a : ReadAttempt) (rest : list ReadAttempt) :
  readi_reply a < 0 -> readi_reply a <> - EAGAIN ->
  pcm_state a = SND_PCM_STATE_DISCONNECTED ->
  postponed_exception (read_loop (a :: rest) (write_region s / frame_size s) s)
    = Some (runtime_error "PCM error - stream aborted").
Proof.
  intros Hneg Hagain Hst. cbn [read_loop].
  destruct (Z.ltb_spec (readi_reply a) 0); [|lia].
  destruct (Z.eqb_spec (readi_reply a) (- EAGAIN)); [done|].
  destruct (Recover _ _ _ _) as [ret fx] eqn:HR.
  assert (ret = readi_reply a) as ->.
  { pose proof (Recover_raw := f_equal fst HR). cbn [fst] in Recover_raw.
    rewrite Hst in Recover_raw. unfold Recover in Recover_raw.
    destruct (readi_reply a =? - EPIPE);
      [|destruct (readi_reply a =? - ESTRPIPE)]; by cbn [fst] in Recover_raw. }
  by destruct (Z.ltb_spec (readi_reply a) 0); [|lia].
Qed.

(** The read loop neither pauses nor invalidates the sockets. *)
Lemma read_loop_keeps_registration script : forall w_frames s,
  paused (read_loop script w_frames s) = paused s /\
  invalidations (read_loop script w_frames s) = invalidations s.
Proof.
  induction script as [|a rest IH]; intros w_frames s; cbn [read_loop].
  - done.
  - destruct (readi_reply a <? 0); [|done].
    destruct (readi_reply a =? - EAGAIN); [done|].
    destruct (Recover _ _ _ _) as [ret fx].
    destruct (ret <? 0); [done|].
    by destruct (IH w_frames
                   (add_effects fx (add_effects [Call (snd_pcm_readi w_frames)] s)))
      as [-> ->].
Qed.

Lemma no_whole_frame (w fs : Z) : 0 < fs -> 0 <= w -> (w / fs =? 0) = true <-> w < fs.
Proof.
  intros Hfs Hw. rewrite Z.eqb_eq, Z.div_small_iff by lia. lia.
Qed.

(** C1 (as stated, refuted): with room for three bytes and frames of
    four bytes the writable region is not empty, and the drain attempt
    pauses the stream all the same and has the sockets dropped. *)
Lemma pause_with_room_left :
  write_region AlsaExample.nearly_full = 3 /\
  paused AlsaExample.nearly_full = false /\
  paused (DispatchSockets AlsaExample.quiet AlsaExample.nearly_full) = true /\
  invalidations (DispatchSockets AlsaExample.quiet AlsaExample.nearly_full)
    = S (invalidations AlsaExample.nearly_full) /\
  sockets (PrepareSockets ([7], 100)
             (DispatchSockets AlsaExample.quiet AlsaExample.nearly_full)).2 = [].
Proof. repeat apply conj; vm_compute; reflexivity. Qed.

(** C1 (amended): a drain attempt on a stream that is not paused pauses
    it, and invalidates the socket list so that the next
    [PrepareSockets] drops the descriptors and asks for no wake-up,
    exactly when the socket dispatch raised nothing and the writable
    region holds less than one whole frame ([w.size() / frame_size] is
    zero; an empty region is one such case).  A drain attempt that
    finds room for a frame never pauses. *)
Theorem DispatchSockets_pauses_below_one_frame
  (env : DispatchEnv) (s : AlsaInputStream) :
  0 < frame_size s -> 0 <= write_region s -> paused s = false ->
  let s' := DispatchSockets env s in
  (paused s' = true <->
     non_block_error env = None /\ write_region s < frame_size s) /\
  (invalidations s' = S (invalidations s) <->
     non_block_error env = None /\ write_region s < frame_size s) /\
  (write_region s = 0 -> non_block_error env = None -> s' = Pause s) /\
  (paused s' = true ->
     forall non_block, PrepareSockets non_block s' = (-1, set_sockets [] s')).
Proof.
  intros Hfs Hw Hp s'.
  assert (Hcases :
    (non_block_error env = None /\ write_region s < frame_size s /\ s' = Pause s) \/
    ((non_block_error env <> None \/ frame_size s <= write_region s) /\
     paused s' = false /\ invalidations s' = invalidations s)).
  { subst s'. unfold DispatchSockets, PrepareWriteBuffer.
    destruct (non_block_error env) as [e|].
    - right. split; [by left|]. done.
    - pose proof (no_whole_frame (write_region s) (frame_size s) Hfs Hw) as Hdiv.
      destruct (write_region s / frame_size s =? 0).
      + left. split; [done|]. split; [by apply Hdiv|done].
      + right. split; [right; destruct (Z.lt_ge_cases (write_region s) (frame_size s));
                        [by apply Hdiv in H|lia]|].
        destruct (read_loop_keeps_registration (script env)
                    (write_region s / frame_size s) s) as [-> ->]. done. }
  split; [|split; [|split]].
  - destruct Hcases as [(Hnb & Hlt & ->)|([Hnb|Hge] & Hps & _)].
    + done.
    + rewrite Hps. split; [done|]. by intros [? _].
    + rewrite Hps. split; [done|]. intros [_ ?]. lia.
  - destruct Hcases as [(Hnb & Hlt & ->)|([Hnb|Hge] & _ & Hinv)].
    + done.
    + rewrite Hinv. split; [lia|]. by intros [? _].
    + rewrite Hinv. split; [lia|]. intros [_ ?]. lia.
  - intros Hz Hnb. destruct Hcases as [(_ & _ & ->)|([?|?] & _ & _)]; [done|done|lia].
  - intros Hps non_block. unfold PrepareSockets, IsPaused. by rewrite Hps.
Qed.

Lemma DispatchSockets_pauses_below_one_frame_witness :
  0 < frame_size AlsaExample.nearly_full /\
  0 <= write_region AlsaExample.nearly_full /\
  paused AlsaExample.nearly_full = false /\
  paused (DispatchSockets AlsaExample.quiet AlsaExample.nearly_full) = true.
Proof.
  assert (H1 : 0 < frame_size AlsaExample.nearly_full) by (simpl; lia).
  assert (H2 : 0 <= write_region AlsaExample.nearly_full) by (simpl; lia).
  assert (H3 : paused AlsaExample.nearly_full = false) by reflexivity.
  split; [exact H1|]. split; [exact H2|]. split; [exact H3|].
  apply (proj1 (DispatchSockets_pauses_below_one_frame
                  AlsaExample.quiet AlsaExample.nearly_full H1 H2 H3)).
  split; [reflexivity|simpl; lia].
Defined.

End AlsaStreamFacts.

(** ** The source identifier *)

Section AlsaSpecFacts.
Import Alsa.

Context {AudioFormat : Type}.
Variable ParseAudioFormat : string -> exn + AudioFormat.
Variable GetFrameSize : AudioFormat -> Z.
Variable TimeToSize : AudioFormat -> Z -> Z.
Variable get_bool : string -> exn + bool.

(** Cutting at a character the prefix cannot match does not change
    whether the prefix is there. *)
Lemma Split_starts_with (ch : ascii) : forall haystack needle,
  Forall (fun n => char_eq_ignore_case ch n = false) (list_ascii_of_string needle) ->
  StringStartsWithIgnoreCase (Split haystack ch).1 needle
    = StringStartsWithIgnoreCase haystack needle.
Proof.
  induction haystack as [|c rest IH]; intros needle Hn.
  - reflexivity.
  - destruct needle as [|n needle'].
    + cbn [Split]. destruct (Ascii.eqb c ch); [done|]. by destruct (Split rest ch).
    + cbn [list_ascii_of_string] in Hn. apply Forall_cons in Hn as [Hc Hn].
      cbn [Split]. destruct (Ascii.eqb_spec c ch) as [->|Hne].
      * cbn [fst StringStartsWithIgnoreCase]. by rewrite Hc.
      * specialize (IH needle' Hn). destruct (Split rest ch) as [a b].
        cbn [fst StringStartsWithIgnoreCase] in *. by rewrite IH.
Qed.

Lemma Split_no_query (ch : ascii) : forall haystack,
  (Split haystack ch).2 = None -> (Split haystack ch).1 = haystack.
Proof.
  induction haystack as [|c rest IH]; cbn [Split]; [done|].
  destruct (Ascii.eqb c ch); [done|].
  destruct (Split rest ch) as [a b]. cbn [fst snd] in *.
  intros Hb. by rewrite IH.
Qed.

Lemma scheme_of_head (_uri : string) :
  StringStartsWithIgnoreCase (Split _uri "?").1 ALSA_URI_PREFIX
    = StringStartsWithIgnoreCase _uri ALSA_URI_PREFIX.
Proof.
  apply Split_starts_with. repeat constructor.
Qed.

Lemma IsValidScheme_named (u d : string) (f : string_view) (af : option AudioFormat) :
  IsValidScheme {| uri := u; device_name := Some d; format_string := f;
                   audio_format := af |} = true.
Proof. reflexivity. Qed.

Lemma alsa_input_init_defaults (block : ConfigBlock) (cfg : global_config_t) :
  alsa_input_init get_bool block = inr cfg ->
  default_device cfg
    = Some (GetBlockValue block "default_device" BUILTIN_DEFAULT_DEVICE) /\
  default_format cfg
    = Some (GetBlockValue block "default_format" BUILTIN_DEFAULT_FORMAT).
Proof.
  unfold alsa_input_init, mode_bit.
  destruct (GetBlockValue_bool get_bool block "auto_resample" true); [done|].
  destruct (GetBlockValue_bool get_bool block "auto_channels" true); [done|].
  destruct (GetBlockValue_bool get_bool block "auto_format" true); [done|].
  by intros [= <-].
Qed.

(** C8: an identifier that does not begin with [alsa://] (letters
    compared without regard to case) makes [SourceSpec] report an
    invalid scheme, and [Create] returns the null pointer without a
    single call on a device. *)
Theorem Create_rejects_foreign_scheme
  (global_config : global_config_t) (env : OpenEnv AudioFormat) (_uri : string) :
  StringStartsWithIgnoreCase _uri ALSA_URI_PREFIX = false ->
  (exists spec, SourceSpec_new ParseAudioFormat global_config _uri = inr spec /\
                IsValidScheme spec = false) /\
  Create ParseAudioFormat GetFrameSize TimeToSize global_config env _uri = Nullptr /\
  device_effects
    (Create ParseAudioFormat GetFrameSize TimeToSize global_config env _uri) = [].
Proof.
  intros Hscheme. rewrite <- scheme_of_head in Hscheme.
  assert (Hspec : exists spec,
             SourceSpec_new ParseAudioFormat global_config _uri = inr spec /\
             IsValidScheme spec = false).
  { unfold SourceSpec_new. destruct (Split _uri "?") as [a b].
    cbn [fst] in Hscheme. unfold StringAfterPrefixIgnoreCase. rewrite Hscheme.
    eexists. split; reflexivity. }
  destruct Hspec as (spec & Hnew & Hinvalid).
  split; [by exists spec|].
  unfold Create. rewrite Hnew, Hinvalid. done.
Qed.

(** C9: for an identifier with the [alsa://] prefix, read under the
    configuration [alsa_input_init] has set up: when nothing follows
    the prefix, the device name of the spec is the configured default
    device; when there is no [?] at all, the format string is the
    configured default format, and it is this string that goes through
    [ParseAudioFormat] (whose failure is the failure of the
    constructor). *)
Theorem SourceSpec_defaults
  (block : ConfigBlock) (global_config : global_config_t) (_uri : string) :
  alsa_input_init get_bool block = inr global_config ->
  StringStartsWithIgnoreCase _uri ALSA_URI_PREFIX = true ->
  let dev := GetBlockValue block "default_device" BUILTIN_DEFAULT_DEVICE in
  let fmt := GetBlockValue block "default_format" BUILTIN_DEFAULT_FORMAT in
  (StringAfterPrefixIgnoreCase (Split _uri "?").1 ALSA_URI_PREFIX = Some EmptyString ->
   forall spec, SourceSpec_new ParseAudioFormat global_config _uri = inr spec ->
                GetDeviceName spec = Some dev) /\
  ((Split _uri "?").2 = None ->
   match SourceSpec_new ParseAudioFormat global_config _uri with
   | inr spec => GetFormatString spec = Some fmt /\
                 exists af, ParseAudioFormat fmt = inr af /\
                            audio_format spec = Some af
   | inl e => ParseAudioFormat fmt = inl e
   end).
Proof.
  intros Hinit Hscheme dev fmt.
  destruct (alsa_input_init_defaults block global_config Hinit) as [Hdev Hfmt].
  fold dev in Hdev. fold fmt in Hfmt.
  rewrite <- scheme_of_head in Hscheme.
  split.
  - intros Hseg spec. unfold SourceSpec_new.
    destruct (Split _uri "?") as [a b]. cbn [fst] in Hseg. rewrite Hseg.
    rewrite IsValidScheme_named. cbn [sv_empty]. rewrite Hdev.
    destruct b as [b'|].
    + destruct (StringAfterPrefixIgnoreCase b' "format=") as [f|].
      * destruct (ParseAudioFormat f); by intros [= <-].
      * by intros [= <-].
    + rewrite Hfmt. destruct (ParseAudioFormat fmt); by intros [= <-].
  - intros Hquery. unfold SourceSpec_new.
    destruct (Split _uri "?") as [a b]. cbn [fst snd] in *. subst b.
    unfold StringAfterPrefixIgnoreCase. rewrite Hscheme, Hfmt.
    rewrite IsValidScheme_named.
    destruct (ParseAudioFormat fmt) as [e|af]; [done|].
    split; [done|]. by exists af.
Qed.

(** C7 (the code at the failing input): [alsa://hw:0?rate=44100] has
    the prefix and a query without [format=].  The spec comes out
    scheme-valid and not valid, with no format string and an
    [audio_format] that was never assigned.  [Create] asks for
    [IsValidScheme] only: it neither throws nor returns the null
    pointer, it opens and starts the device, and the stream takes its
    frame and buffer sizes from the unassigned format. *)
Theorem Create_opens_device_without_format
  (global_config : global_config_t) (garbage : AudioFormat) :
  let env := mkOpenEnv 0 None garbage in
  let spec := {| uri := "alsa://hw:0?rate=44100"; device_name := Some "hw:0";
                 format_string := None; audio_format := None |} in
  SourceSpec_new ParseAudioFormat global_config "alsa://hw:0?rate=44100" = inr spec /\
  IsValidScheme spec = true /\
  IsValid spec = false /\
  Create ParseAudioFormat GetFrameSize TimeToSize global_config env
    "alsa://hw:0?rate=44100"
    = Made {| stream_uri := "alsa://hw:0?rate=44100";
              buffer_size := TimeToSize garbage 1000;
              resume_at := TimeToSize garbage 500;
              paused := false;
              write_region := TimeToSize garbage 1000;
              postponed_exception := None;
              mime_type := Some "audio/x-mpd-alsa-pcm;format=";
              ready := true;
              device := "hw:0";
              frame_size := GetFrameSize garbage;
              sockets := [];
              invalidations := 1;
              available_calls := 0;
              effects := [Call (snd_pcm_open "hw:0"
                                  (Z.lor SND_PCM_NONBLOCK (mode global_config)));
                          Call snd_pcm_configure; Call snd_pcm_prepare;
                          Call snd_pcm_start] |}.
Proof.
  intros env spec.
  assert (Hnew : SourceSpec_new ParseAudioFormat global_config
                   "alsa://hw:0?rate=44100" = inr spec) by reflexivity.
  split; [exact Hnew|]. split; [reflexivity|]. split; [reflexivity|].
  unfold Create. rewrite Hnew. reflexivity.
Qed.

(** [Create] goes on to the constructor of the stream for every spec
    with a valid scheme, also for one that is not valid: then no format
    was parsed, and the constructor runs on an unassigned one. *)
Lemma Create_ignores_IsValid
  (global_config : global_config_t) (env : OpenEnv AudioFormat) (_uri : string)
  (spec : SourceSpec AudioFormat) :
  SourceSpec_new ParseAudioFormat global_config _uri = inr spec ->
  IsValidScheme spec = true ->
  IsValid spec = false ->
  audio_format spec = None /\
  Create ParseAudioFormat GetFrameSize TimeToSize global_config env _uri
    = AlsaInputStream_new GetFrameSize TimeToSize global_config env spec.
Proof.
  intros Hnew Hscheme Hvalid. split.
  - unfold IsValid in Hvalid. unfold IsValidScheme in Hscheme.
    rewrite Hscheme in Hvalid. cbn [andb] in Hvalid.
    apply bool_decide_eq_false in Hvalid.
    unfold SourceSpec_new in Hnew. destruct (Split _uri "?") as [a b].
    destruct (IsValidScheme _) in Hnew.
    + destruct (match b with Some _ => _ | None => _ end) as [f|] eqn:Hf.
      * destruct (ParseAudioFormat f); [done|].
        injection Hnew as <-. cbn [format_string] in Hvalid.
        destruct Hvalid. eauto.
      * by injection Hnew as <-.
    + by injection Hnew as <-.
  - unfold Create. by rewrite Hnew, Hscheme.
Qed.

End AlsaSpecFacts.

(** ** The theorems at work on the example instance *)

Lemma Create_rejects_foreign_scheme_witness :
  StringStartsWithIgnoreCase "http://radio.example/live" Alsa.ALSA_URI_PREFIX = false /\
  Alsa.Create AlsaExample.ParseAudioFormat AlsaExample.GetFrameSize
    AlsaExample.TimeToSize AlsaExample.configured AlsaExample.willing
    "http://radio.example/live" = Alsa.Nullptr.
Proof.
  assert (H : StringStartsWithIgnoreCase "http://radio.example/live"
                Alsa.ALSA_URI_PREFIX = false) by reflexivity.
  split; [exact H|].
  exact (proj1 (proj2 (Create_rejects_foreign_scheme
                         AlsaExample.ParseAudioFormat AlsaExample.GetFrameSize
                         AlsaExample.TimeToSize AlsaExample.configured
                         AlsaExample.willing "http://radio.example/live" H))).
Defined.

Lemma SourceSpec_defaults_witness :
  Alsa.alsa_input_init AlsaExample.get_bool AlsaExample.block
    = inr AlsaExample.configured /\
  StringStartsWithIgnoreCase "ALSA://" Alsa.ALSA_URI_PREFIX = true /\
  Alsa.GetDeviceName
    {| Alsa.uri := "ALSA://"; Alsa.device_name := Some "hw:1";
       Alsa.format_string := Some "44100:16:2";
       Alsa.audio_format := Some (AlsaExample.mkFormat 44100 16 2) |}
    = Some "hw:1" /\
  match Alsa.SourceSpec_new AlsaExample.ParseAudioFormat AlsaExample.configured
          "ALSA://" with
  | inr spec =>
      Alsa.GetFormatString spec = Some "44100:16:2" /\
      exists af, AlsaExample.ParseAudioFormat "44100:16:2" = inr af /\
                 Alsa.audio_format spec = Some af
  | inl e => AlsaExample.ParseAudioFormat "44100:16:2" = inl e
  end.
Proof.
  assert (H1 : Alsa.alsa_input_init AlsaExample.get_bool AlsaExample.block
               = inr AlsaExample.configured) by (vm_compute; reflexivity).
  assert (H2 : StringStartsWithIgnoreCase "ALSA://" Alsa.ALSA_URI_PREFIX = true)
    by reflexivity.
  pose proof (SourceSpec_defaults AlsaExample.ParseAudioFormat AlsaExample.get_bool
                AlsaExample.block AlsaExample.configured "ALSA://" H1 H2) as [Hd Hf].
  split; [exact H1|]. split; [exact H2|]. split.
  - apply Hd; vm_compute; reflexivity.
  - apply Hf. reflexivity.
Defined.

(** * Further properties *)

(** ** The field extractor over whole token sequences *)

Section QobuzSequences.
Import Qobuz.

Lemma feed_cons e evs p :
  feed (e :: evs) p = feed evs (dispatch e p).2.
Proof.
  cbn [feed]. pose proof (dispatch_ok e p) as Hok.
  destruct (dispatch e p) as [ok p1]. cbn [fst snd] in *. by subst ok.
Qed.

Lemma feed_app evs1 : forall evs2 p,
  feed (evs1 ++ evs2) p = feed evs1 p ≫= feed evs2.
Proof.
  induction evs1 as [|e evs1 IH]; intros evs2 p; [done|].
  rewrite <- app_comm_cons, !feed_cons. apply IH.
Qed.

(** What one event does to the items: nothing, or one item whose
    value is the event's string. *)
Lemma dispatch_items e p :
  items (tag (dispatch e p).2) = items (tag p) \/
  exists ty v, e = EvString v /\
               items (tag (dispatch e p).2) = items (tag p) ++ [(ty, v)].
Proof.
  destruct e; cbn [dispatch snd]; try (by left).
  - left. unfold Integer. destruct (state p); try done. by destruct (0 <? value).
  - unfold String_. destruct (state p); try (by left);
      destruct (map_depth p =? _); try (by left); right; eauto.
  - left. unfold MapKey.
    destruct (map_depth p) as [|[[]|[]|]|]; try done;
      destruct (state p); try done;
      repeat (match goal with |- context [String.eqb ?a ?b] =>
                destruct (String.eqb a b) end); done.
  - left. unfold EndMap.
    destruct (map_depth p) as [|[[]|[]|]|]; try done. by destruct (state p).
Qed.

(** X1: feeding never removes or reorders what the record holds: the
    items afterwards are the items before followed by new ones, and the
    values of the new items are string scalars of the sequence, in the
    order of the sequence. *)
Theorem feed_appends_strings (evs : list Event) (p : ResponseParser) :
  exists p' added,
    feed evs p = Some p' /\
    items (tag p') = items (tag p) ++ added /\
    sublist (added.*2) (string_values evs).
Proof.
  revert p. induction evs as [|e evs IH]; intros p.
  - exists p, []. rewrite app_nil_r. repeat split. constructor.
  - rewrite feed_cons.
    destruct (IH (dispatch e p).2) as (p' & added & Hfeed & Hitems & Hsub).
    destruct (dispatch_items e p) as [Hsame|(ty & v & -> & Hone)].
    + exists p', added. rewrite Hsame in Hitems. split; [done|]. split; [done|].
      destruct e; cbn [string_values]; try done. by apply sublist_cons.
    + exists p', ((ty, v) :: added). split; [done|]. split.
      * rewrite Hitems, Hone, <- app_assoc. done.
      * cbn [string_values fmap list_fmap snd]. by apply sublist_skip.
Qed.

Lemma dispatch_duration e p :
  duration (tag (dispatch e p).2) = duration (tag p) \/
  exists v, e = EvInteger v /\ 0 < v /\
            duration (tag (dispatch e p).2) = FromS (v mod 2 ^ 32).
Proof.
  destruct e; cbn [dispatch snd]; try (by left).
  - unfold Integer. destruct (state p); try (by left).
    destruct (Z.ltb_spec 0 value); [|by left]. right. by exists value.
  - left. unfold String_. destruct (state p); try done;
      by destruct (map_depth p =? _).
  - left. unfold MapKey.
    destruct (map_depth p) as [|[[]|[]|]|]; try done;
      destruct (state p); try done;
      repeat (match goal with |- context [String.eqb ?a ?b] =>
                destruct (String.eqb a b) end); done.
  - left. unfold EndMap.
    destruct (map_depth p) as [|[[]|[]|]|]; try done. by destruct (state p).
Qed.

(** X2: the duration after a sequence is the duration before it, or
    it comes from a positive integer scalar [v] of the sequence and is
    [v] cut to 32 bits, in seconds.  No integer that is zero or
    negative ever becomes the duration. *)
Theorem feed_duration_origin (evs : list Event) (p : ResponseParser) :
  exists p',
    feed evs p = Some p' /\
    (duration (tag p') = duration (tag p) \/
     exists v, In v (integer_values evs) /\ 0 < v /\
               duration (tag p') = FromS (v mod 2 ^ 32)).
Proof.
  revert p. induction evs as [|e evs IH]; intros p.
  - exists p. split; [done|]. by left.
  - rewrite feed_cons.
    destruct (IH (dispatch e p).2) as (p' & Hfeed & Hd).
    exists p'. split; [done|].
    destruct Hd as [Hsame|(v & Hin & Hpos & Hv)].
    + rewrite Hsame.
      destruct (dispatch_duration e p) as [->|(v & -> & Hpos & ->)]; [by left|].
      right. exists v. split; [by left|done].
    + right. exists v. split; [|done].
      destruct e; cbn [integer_values]; try done. by right.
Qed.

(** Inside an object that hangs under the title or under a key the
    scanner does not know, nothing is looked at. *)
Lemma nested_events_ignored evs : forall p d,
  state p = NONE \/ state p = TITLE ->
  map_depth p = d -> 2 <= d < 2 ^ 32 ->
  closes_at 2 d evs = true ->
  feed evs p = Some (set_map_depth 2 p).
Proof.
  induction evs as [|e evs IH]; intros p d Hst Hd Hrange Hc.
  - cbn [closes_at] in Hc. apply Z.eqb_eq in Hc. cbn [feed]. f_equal.
    destruct p; cbn in *. unfold set_map_depth; cbn. congruence.
  - rewrite feed_cons.
    assert (Hskip : forall q, state q = state p -> tag q = tag p ->
              map_depth q < 2 ^ 32 -> 2 <= map_depth q ->
              closes_at 2 (map_depth q) evs = true ->
              feed evs q = Some (set_map_depth 2 p)).
    { intros q Hq Htag Hlt Hge Hcq.
      assert (Hq' : state q = NONE \/ state q = TITLE) by (by rewrite Hq).
      rewrite (IH q (map_depth q) Hq' eq_refl (conj Hge Hlt) Hcq).
      unfold set_map_depth. by rewrite Hq, Htag. }
    assert (Hsame : feed evs p = Some (set_map_depth 2 p) \/
                    closes_at 2 d evs <> true).
    { destruct (closes_at 2 d evs) eqn:Hcd; [left|by right].
      apply Hskip; rewrite ?Hd; first [done | lia]. }
    destruct e; cbn [dispatch snd closes_at] in *;
      try (by destruct Hsame).
    + (* integer *)
      unfold Integer. destruct Hst as [Hs|Hs]; rewrite Hs; cbn [snd];
        by destruct Hsame.
    + (* string *)
      unfold String_. destruct Hst as [Hs|Hs]; rewrite Hs; cbn [snd];
        [by destruct Hsame|].
      destruct (Z.eqb_spec (map_depth p) 1); [lia|].
      cbn [snd]. by destruct Hsame.
    + (* map start *)
      apply andb_prop in Hc as [Hlt Hc]. apply Z.ltb_lt in Hlt.
      unfold StartMap. cbn [snd].
      apply Hskip; cbn [set_map_depth state tag map_depth];
        rewrite ?Hd, ?Z.mod_small by lia; first [done | lia].
    + (* key *)
      assert (MapKey key p = (true, p)) as ->.
      { unfold MapKey. rewrite Hd.
        destruct d as [|[[]|[]|]|]; try lia; try done;
          destruct Hst as [Hs|Hs]; by rewrite Hs. }
      cbn [snd]. by destruct Hsame.
    + (* map end *)
      apply andb_prop in Hc as [Hlt Hc]. apply Z.ltb_lt in Hlt.
      assert (EndMap p = (true, set_map_depth (d - 1) p)) as ->.
      { unfold EndMap. rewrite Hd.
        assert (Hmod : (d - 1) mod 2 ^ 32 = d - 1) by (apply Z.mod_small; lia).
        destruct d as [|[[]|[]|]|]; try lia;
          try (destruct Hst as [Hs|Hs]; rewrite Hs);
          cbn [set_map_depth state tag map_depth];
          rewrite ?Hd, ?Hmod; reflexivity. }
      cbn [snd]. apply Hskip; cbn [set_map_depth state tag map_depth];
        first [done | lia].
Qed.

(** X3: an object met as the value of the title or of a top-level key
    the scanner does not know is skipped whole, whatever it holds
    (namesake keys, strings, integers, further objects): when it has
    closed the record is untouched, the depth is 1 again and the path
    state is neutral. *)
Theorem unrelated_object_is_skipped (inner : list Event) (p : ResponseParser) :
  map_depth p = 1 ->
  state p = NONE \/ state p = TITLE ->
  closes_at 2 2 inner = true ->
  feed (EvStartMap :: inner ++ [EvEndMap]) p = Some (set_state NONE p).
Proof.
  intros Hd Hst Hinner.
  rewrite feed_cons, feed_app. cbn [dispatch StartMap snd].
  rewrite (nested_events_ignored inner _ 2);
    cbn [set_map_depth state tag map_depth]; rewrite ?Hd; try done.
  cbn [mbind option_bind]. rewrite feed_cons. cbn [dispatch feed].
  unfold EndMap. cbn [set_map_depth state tag map_depth snd set_state].
  destruct p as [st d t]. cbn in *. by subst.
Qed.

Lemma unrelated_object_is_skipped_witness :
  let p := {| state := NONE; map_depth := 1; tag := TagBuilder_new |} in
  let inner := [EvMapKey "title"; EvString "not the title";
                EvMapKey "album"; EvStartMap;
                  EvMapKey "title"; EvString "nor the album";
                  EvMapKey "duration"; EvInteger 9;
                EvEndMap] in
  map_depth p = 1 /\ closes_at 2 2 inner = true /\
  feed (EvStartMap :: inner ++ [EvEndMap]) p = Some (set_state NONE p).
Proof.
  intros p inner.
  assert (H1 : map_depth p = 1) by reflexivity.
  assert (H2 : closes_at 2 2 inner = true) by reflexivity.
  split; [exact H1|]. split; [exact H2|].
  exact (unrelated_object_is_skipped inner p H1 (or_introl eq_refl) H2).
Defined.

(** X4: closing an object gives the path back to its parent.  After
    an object at depth 2 has closed, the key it hung under is
    forgotten: no scalar is recorded until the next key.  After the
    artist object inside the album has closed, the album is the
    current path again, so that a title key that follows is the album
    title. *)
Theorem EndMap_returns_to_parent (p : ResponseParser) :
  (map_depth p = 2 ->
   state (EndMap p).2 = NONE /\ map_depth (EndMap p).2 = 1 /\
   forall evs, Forall (fun e => match e with
                                | EvString _ | EvInteger _ => True
                                | _ => False
                                end) evs ->
               feed evs (EndMap p).2 = Some (EndMap p).2) /\
  (map_depth p = 3 ->
   state p = ALBUM_ARTIST \/ state p = ALBUM_ARTIST_NAME ->
   state (EndMap p).2 = ALBUM /\ map_depth (EndMap p).2 = 2 /\
   forall v, feed [EvMapKey "title"; EvString v] (EndMap p).2
             = Some {| state := ALBUM_TITLE; map_depth := 2;
                       tag := AddItem TAG_ALBUM v (tag p) |}).
Proof.
  split.
  - intros Hd.
    assert (HE : (EndMap p).2 = {| state := NONE; map_depth := 1; tag := tag p |}).
    { unfold EndMap. rewrite Hd.
      cbn [snd set_state set_map_depth state map_depth tag]. by rewrite Hd. }
    rewrite HE. split; [done|]. split; [done|].
    intros evs Hall. induction Hall as [|e evs He _ IH]; [done|].
    rewrite feed_cons. destruct e; try done; exact IH.
  - intros Hd Hst.
    assert (HE : (EndMap p).2 = {| state := ALBUM; map_depth := 2; tag := tag p |}).
    { unfold EndMap. rewrite Hd. destruct Hst as [Hs|Hs]; rewrite Hs;
        cbn [snd set_state set_map_depth state map_depth tag]; by rewrite Hd. }
    rewrite HE. split; [done|]. split; [done|]. intros v. reflexivity.
Qed.

Lemma EndMap_returns_to_parent_witness :
  let p := {| state := ALBUM_ARTIST_NAME; map_depth := 3;
              tag := AddItem TAG_ALBUM_ARTIST "AA" TagBuilder_new |} in
  let q := {| state := COMPOSER_NAME; map_depth := 2;
              tag := AddItem TAG_COMPOSER "C" TagBuilder_new |} in
  (map_depth q = 2 /\ state (EndMap q).2 = NONE /\
   feed [EvString "stray"; EvInteger 7] (EndMap q).2 = Some (EndMap q).2) /\
  (map_depth p = 3 /\ state (EndMap p).2 = ALBUM /\ map_depth (EndMap p).2 = 2).
Proof.
  intros p q.
  assert (H1 : map_depth p = 3) by reflexivity.
  assert (H2 : map_depth q = 2) by reflexivity.
  split.
  - destruct (proj1 (EndMap_returns_to_parent q) H2) as (Hs & _ & Hfeed).
    split; [exact H2|]. split; [exact Hs|].
    apply Hfeed. repeat constructor.
  - destruct (proj2 (EndMap_returns_to_parent p) H1 (or_intror eq_refl))
      as (Hs & Hd & _).
    split; [exact H1|]. split; [exact Hs|exact Hd].
Defined.

Lemma String_commits v p ty :
  item_type (state p) = Some ty ->
  terminal_depth (state p) = Some (map_depth p) ->
  String_ v p = (true, set_tag (AddItem ty v (tag p)) p).
Proof.
  unfold String_. intros Hty Hd.
  destruct (state p); try done; cbn in Hty, Hd;
    injection Hty as <-; injection Hd as <-; reflexivity.
Qed.

Lemma feed_strings vs : forall p ty,
  item_type (state p) = Some ty ->
  terminal_depth (state p) = Some (map_depth p) ->
  feed (EvString <$> vs) p
    = Some (set_tag {| duration := duration (tag p);
                       items := items (tag p) ++ (pair ty <$> vs) |} p).
Proof.
  induction vs as [|v vs IH]; intros p ty Hty Hd.
  - cbn. rewrite app_nil_r. by destruct p as [? ? []].
  - rewrite fmap_cons, feed_cons. cbn [dispatch].
    rewrite (String_commits v p ty Hty Hd). cbn [snd].
    rewrite (IH _ ty) by done.
    unfold set_tag, AddItem. cbn. by rewrite <- app_assoc.
Qed.

(** X5: an array of strings met in a terminal state at its depth
    gives one item per element, in the order of the array; the array
    brackets themselves reach no code. *)
Theorem array_of_strings_is_recorded
  (vs : list string) (p : ResponseParser) (ty : TagType) :
  item_type (state p) = Some ty ->
  terminal_depth (state p) = Some (map_depth p) ->
  feed (EvStartArray :: (EvString <$> vs) ++ [EvEndArray]) p
    = Some (set_tag {| duration := duration (tag p);
                       items := items (tag p) ++ (pair ty <$> vs) |} p).
Proof.
  intros Hty Hd.
  rewrite feed_cons, feed_app. cbn [dispatch snd].
  by rewrite (feed_strings vs p ty Hty Hd).
Qed.

Lemma array_of_strings_is_recorded_witness :
  let p := {| state := PERFORMER_NAME; map_depth := 2; tag := TagBuilder_new |} in
  item_type (state p) = Some TAG_PERFORMER /\
  terminal_depth (state p) = Some (map_depth p) /\
  (GetTag <$> feed [EvStartArray; EvString "first"; EvString "second"; EvEndArray] p)
    = Some {| duration := Negative;
              items := [(TAG_PERFORMER, "first"); (TAG_PERFORMER, "second")] |}.
Proof.
  intros p.
  assert (H1 : item_type (state p) = Some TAG_PERFORMER) by reflexivity.
  assert (H2 : terminal_depth (state p) = Some (map_depth p)) by reflexivity.
  split; [exact H1|]. split; [exact H2|].
  change [EvStartArray; EvString "first"; EvString "second"; EvEndArray]
    with (EvStartArray :: (EvString <$> ["first"; "second"]) ++ [EvEndArray]).
  by rewrite (array_of_strings_is_recorded ["first"; "second"] p TAG_PERFORMER H1 H2).
Defined.

End QobuzSequences.

(** ** Draining the device *)

Section AlsaDrainFacts.
Import Alsa.

(** [Recover] with the log left out. *)
Lemma recovered_cases device err st r :
  recovered device err st r =
  match st with
  | SND_PCM_STATE_PAUSED => (pause_reply r, [snd_pcm_pause 0])
  | SND_PCM_STATE_SUSPENDED =>
      if resume_reply r =? - EAGAIN then (0, [snd_pcm_resume])
      else (reprepare_result r, snd_pcm_resume :: reprepare_calls r)
  | SND_PCM_STATE_OPEN | SND_PCM_STATE_SETUP | SND_PCM_STATE_XRUN =>
      (reprepare_result r, reprepare_calls r)
  | SND_PCM_STATE_DISCONNECTED | SND_PCM_STATE_PRIVATE1 => (err, [])
  | _ => (0, [])
  end.
Proof.
  destruct (prepare_and_start_spec r) as [Hres Hcalls].
  unfold recovered, Recover.
  destruct (err =? - EPIPE); [|destruct (err =? - ESTRPIPE)];
    destruct st; try destruct (resume_reply r =? - EAGAIN);
    try destruct (prepare_and_start r) as [e fx];
    cbn [fst snd] in *;
    rewrite ?pcm_calls_app, ?pcm_calls_debug, ?pcm_calls_call, ?pcm_calls_nil,
      ?Hcalls, ?Hres;
    reflexivity.
Qed.

(** X6: what [Recover] does is decided by the state of the device, not
    by the error code: unless the device is disconnected (or in the
    private state) the result and the calls on the device are the same
    for every error code and every device name.  In the two states
    left over the error code comes back as it is and the device is not
    touched. *)
Theorem Recover_is_keyed_by_state
  (device device' : string) (err err' : Z) (st : snd_pcm_state_t) (r : PcmReplies) :
  (st <> SND_PCM_STATE_DISCONNECTED -> st <> SND_PCM_STATE_PRIVATE1 ->
   recovered device err st r = recovered device' err' st r) /\
  (st = SND_PCM_STATE_DISCONNECTED \/ st = SND_PCM_STATE_PRIVATE1 ->
   recovered device err st r = (err, [])).
Proof.
  rewrite !recovered_cases. split.
  - intros H1 H2. by destruct st.
  - by intros [-> | ->].
Qed.

Lemma Recover_is_keyed_by_state_witness :
  let r := {| pause_reply := 0; resume_reply := 0;
              prepare_reply := 0; start_reply := 0 |} in
  recovered "hw:0" (- EPIPE) SND_PCM_STATE_XRUN r
    = recovered "hw:1" (- ESTRPIPE) SND_PCM_STATE_XRUN r /\
  recovered "hw:0" (- EPIPE) SND_PCM_STATE_PRIVATE1 r = (- EPIPE, []).
Proof.
  intros r. split.
  - apply (proj1 (Recover_is_keyed_by_state "hw:0" "hw:1" (- EPIPE) (- ESTRPIPE)
                    SND_PCM_STATE_XRUN r)); discriminate.
  - apply (proj2 (Recover_is_keyed_by_state "hw:0" "hw:0" (- EPIPE) (- EPIPE)
                    SND_PCM_STATE_PRIVATE1 r)). by right.
Defined.

(** What the read loop can leave behind: an untouched buffer, a buffer
    shortened by the frames one read delivered, or a stored
    exception. *)
Lemma read_loop_outcome script : forall w_frames s,
  let s' := read_loop script w_frames s in
  frame_size s' = frame_size s /\
  ((write_region s' = write_region s /\
    postponed_exception s' = postponed_exception s) \/
   (exists a, In a script /\ 0 <= readi_reply a /\
              write_region s' = write_region s - readi_reply a * frame_size s /\
              postponed_exception s' = postponed_exception s) \/
   (write_region s' = write_region s /\
    postponed_exception s' = Some (runtime_error "PCM error - stream aborted") /\
    available_calls s' = S (available_calls s))).
Proof.
  induction script as [|a rest IH]; intros w_frames s; cbn [read_loop].
  - split; [done|]. by left.
  - destruct (Z.ltb_spec (readi_reply a) 0) as [Hneg|Hpos].
    + destruct (readi_reply a =? - EAGAIN); [split; [done|]; by left|].
      destruct (Recover _ _ _ _) as [ret fx].
      destruct (ret <? 0); [split; [done|]; right; by right|].
      destruct (IH w_frames
                  (add_effects fx (add_effects [Call (snd_pcm_readi w_frames)] s)))
        as [Hfs Hcases].
      cbn [add_effects frame_size write_region postponed_exception available_calls]
        in Hfs, Hcases.
      split; [done|].
      destruct Hcases as [H|[(b & Hin & H)|H]]; [by left| |right; by right].
      right; left. exists b. split; [by right|done].
    + split; [done|]. right; left. exists a. split; [by left|]. done.
Qed.

(** X7: a drain attempt never commits more bytes than the span it
    claimed holds, and commits whole frames only.  When the device
    answers a read with no more frames than were asked for, what is
    left of the claimed span is between zero and its size, and the
    bytes committed are a number of frames, at most as many as were
    asked for, times the frame size. *)
Theorem DispatchSockets_commits_whole_frames
  (env : DispatchEnv) (s : AlsaInputStream) :
  0 < frame_size s -> 0 <= write_region s ->
  Forall (fun a => readi_reply a <= write_region s / frame_size s) (script env) ->
  let s' := DispatchSockets env s in
  0 <= write_region s' <= write_region s /\
  frame_size s' = frame_size s /\
  exists frames, 0 <= frames <= write_region s / frame_size s /\
                 write_region s' = write_region s - frames * frame_size s.
Proof.
  intros Hfs Hw Hfit s'. subst s'. unfold DispatchSockets, PrepareWriteBuffer.
  assert (Hnone : forall t : AlsaInputStream,
            write_region t = write_region s -> frame_size t = frame_size s ->
            0 <= write_region t <= write_region s /\
            frame_size t = frame_size s /\
            exists frames, 0 <= frames <= write_region s / frame_size s /\
                           write_region t = write_region s - frames * frame_size s).
  { intros t Hwt Hft. split; [lia|]. split; [done|]. exists 0.
    split; [|lia]. split; [lia|]. apply Z.div_pos; lia. }
  destruct (non_block_error env); [by apply Hnone|].
  destruct (write_region s / frame_size s =? 0); [by apply Hnone|].
  destruct (read_loop_outcome (script env) (write_region s / frame_size s) s)
    as [Hf [H|[(a & Hin & Hpos & Hreg & _)|H]]];
    [apply Hnone; [by destruct H|done]| |apply Hnone; [by destruct H|done]].
  rewrite List.Forall_forall in Hfit. specialize (Hfit a Hin).
  pose proof (Z.mul_div_le (write_region s) (frame_size s) Hfs) as Hle.
  split; [|split; [done|]].
  - rewrite Hreg. nia.
  - exists (readi_reply a). split; [lia|done].
Qed.

Lemma DispatchSockets_commits_whole_frames_witness :
  let s := set_write_region 1000 AlsaExample.nearly_full in
  let env := {| non_block_error := None;
                script := [ {| readi_reply := - EPIPE;
                               pcm_state := SND_PCM_STATE_XRUN;
                               replies := mkReplies 0 0 0 0 |};
                            {| readi_reply := 100;
                               pcm_state := SND_PCM_STATE_RUNNING;
                               replies := mkReplies 0 0 0 0 |} ] |} in
  0 < frame_size s /\ 0 <= write_region s /\
  write_region (DispatchSockets env s) = 600 /\
  0 <= write_region (DispatchSockets env s) <= write_region s.
Proof.
  intros s env.
  assert (H1 : 0 < frame_size s) by (simpl; lia).
  assert (H2 : 0 <= write_region s) by (simpl; lia).
  assert (H3 : Forall (fun a => readi_reply a <= write_region s / frame_size s)
                 (script env)).
  { repeat constructor; vm_compute; discriminate. }
  split; [exact H1|]. split; [exact H2|]. split; [reflexivity|].
  exact (proj1 (DispatchSockets_commits_whole_frames env s H1 H2 H3)).
Defined.

(** X8: a drain attempt stores an exception for the consumer only
    together with a call of [InvokeOnAvailable], and then nothing was
    added to the buffer; the exception is the one the socket dispatch
    threw, or "PCM error - stream aborted" after a failed recovery.
    Otherwise the stored exception is what it was. *)
Theorem DispatchSockets_defers_errors (env : DispatchEnv) (s : AlsaInputStream) :
  let s' := DispatchSockets env s in
  postponed_exception s' = postponed_exception s \/
  (available_calls s' = S (available_calls s) /\
   write_region s' = write_region s /\
   paused s' = paused s /\
   ((exists e, non_block_error env = Some e /\ postponed_exception s' = Some e) \/
    (non_block_error env = None /\
     postponed_exception s'
       = Some (runtime_error "PCM error - stream aborted")))).
Proof.
  intros s'. subst s'. unfold DispatchSockets, PrepareWriteBuffer.
  destruct (non_block_error env) as [e|].
  - right. repeat split; try done. left. by exists e.
  - destruct (write_region s / frame_size s =? 0); [by left|].
    destruct (read_loop_outcome (script env) (write_region s / frame_size s) s)
      as [_ [(_ & H)|[(a & _ & _ & _ & H)|(Hw & He & Ha)]]];
      [by left|by left|].
    right. split; [done|]. split; [done|].
    split; [apply read_loop_keeps_registration|]. right. done.
Qed.

(** X9: a read error that [Recover] cannot mend ends the drain at
    once: the stream stores "PCM error - stream aborted", wakes the
    consumer, reads no further and commits nothing, whatever the device
    would have answered next. *)
Theorem failed_recovery_aborts_drain
  (a : ReadAttempt) (rest : list ReadAttempt) (s : AlsaInputStream) :
  0 < frame_size s -> frame_size s <= write_region s ->
  readi_reply a < 0 -> readi_reply a <> - EAGAIN ->
  (recovered (device s) (readi_reply a) (pcm_state a) (replies a)).1 < 0 ->
  let s' := DispatchSockets {| non_block_error := None; script := a :: rest |} s in
  postponed_exception s' = Some (runtime_error "PCM error - stream aborted") /\
  available_calls s' = S (available_calls s) /\
  write_region s' = write_region s /\
  pcm_calls (effects s')
    = pcm_calls (effects s)
      ++ snd_pcm_readi (write_region s / frame_size s)
         :: (recovered (device s) (readi_reply a) (pcm_state a) (replies a)).2.
Proof.
  intros Hfs Hroom Hneg Hagain Hrec s'. subst s'.
  unfold DispatchSockets, PrepareWriteBuffer. cbn [non_block_error script].
  assert ((write_region s / frame_size s =? 0) = false) as ->.
  { apply Z.eqb_neq. intros H0. apply Z.div_small_iff in H0; lia. }
  cbn [read_loop].
  destruct (Z.ltb_spec (readi_reply a) 0); [|lia].
  destruct (Z.eqb_spec (readi_reply a) (- EAGAIN)); [done|].
  unfold recovered in *. cbn [add_effects device] in *.
  destruct (Recover _ _ _ _) as [ret fx]. cbn [fst snd] in *.
  destruct (Z.ltb_spec ret 0); [|lia].
  cbn. rewrite !pcm_calls_app, <- app_assoc. done.
Qed.

Lemma failed_recovery_aborts_drain_witness :
  let s := set_write_region 1000 AlsaExample.nearly_full in
  let a := {| readi_reply := - 19; pcm_state := SND_PCM_STATE_DISCONNECTED;
              replies := mkReplies 0 0 0 0 |} in
  let later := {| readi_reply := 100; pcm_state := SND_PCM_STATE_RUNNING;
                  replies := mkReplies 0 0 0 0 |} in
  0 < frame_size s /\ frame_size s <= write_region s /\
  postponed_exception
    (DispatchSockets {| non_block_error := None; script := [a; later] |} s)
    = Some (runtime_error "PCM error - stream aborted").
Proof.
  intros s a later.
  assert (H1 : 0 < frame_size s) by (simpl; lia).
  assert (H2 : frame_size s <= write_region s) by (simpl; lia).
  split; [exact H1|]. split; [exact H2|].
  apply (failed_recovery_aborts_drain a [later] s H1 H2);
    [simpl; lia | discriminate | vm_compute; reflexivity].
Defined.

End AlsaDrainFacts.

(** ** Identifiers, formats and the opening of the device *)

Section AlsaOpenFacts.
Import Alsa.

Context {AudioFormat : Type}.
Variable ParseAudioFormat : string -> exn + AudioFormat.
Variable GetFrameSize : AudioFormat -> Z.
Variable TimeToSize : AudioFormat -> Z -> Z.
Variable get_bool : string -> exn + bool.

Lemma char_eq_ignore_case_refl c : char_eq_ignore_case c c = true.
Proof. unfold char_eq_ignore_case. apply Ascii.eqb_refl. Qed.

Lemma append_cons (c : ascii) (a b : string) :
  String c a +:+ b = String c (a +:+ b).
Proof. reflexivity. Qed.

Lemma append_assoc (a b c : string) : (a +:+ b) +:+ c = a +:+ (b +:+ c).
Proof.
  induction a as [|x a IH]; [done|]. by rewrite !append_cons, IH.
Qed.

Lemma StringAfterPrefixIgnoreCase_app (needle rest : string) :
  StringAfterPrefixIgnoreCase (needle +:+ rest) needle = Some rest.
Proof.
  unfold StringAfterPrefixIgnoreCase.
  induction needle as [|c needle IH]; [by destruct rest|].
  rewrite append_cons.
  cbn [StringStartsWithIgnoreCase String.length drop_chars].
  rewrite char_eq_ignore_case_refl. cbn [andb].
  destruct (StringStartsWithIgnoreCase (needle +:+ rest) needle); [|done].
  by injection IH as ->.
Qed.

Lemma Split_app (ch : ascii) (a b : string) :
  Forall (fun c => c <> ch) (list_ascii_of_string a) ->
  Split (a +:+ String ch b) ch = (a, Some b).
Proof.
  induction a as [|c a IH]; intros Ha.
  - change (EmptyString +:+ String ch b) with (String ch b).
    cbn [Split]. by rewrite Ascii.eqb_refl.
  - cbn [list_ascii_of_string] in Ha. apply Forall_cons in Ha as [Hc Ha].
    rewrite append_cons. cbn [Split].
    destruct (Ascii.eqb_spec c ch); [done|]. by rewrite (IH Ha).
Qed.

Lemma format_token_is_format_string global_config _uri spec :
  SourceSpec_new ParseAudioFormat global_config _uri = inr spec ->
  format_string spec = format_token global_config _uri.
Proof.
  unfold SourceSpec_new, format_token.
  destruct (Split _uri "?") as [a b]. cbn [snd].
  destruct (IsValidScheme _).
  - destruct b as [q|].
    + destruct (StringAfterPrefixIgnoreCase q "format=") as [f|];
        [destruct (ParseAudioFormat f)|]; by intros [= <-].
    + destruct (default_format global_config) as [f|];
        [destruct (ParseAudioFormat f)|]; by intros [= <-].
  - intros [= <-]. cbn [format_string].
    destruct b; [done|]. by destruct (default_format global_config).
Qed.

(** X10: a spec that came out of the constructor is valid exactly when
    its audio format was parsed, and the format it holds is the parse
    of its own format string; a valid spec has a valid scheme, and the
    spec remembers the identifier it was made from.  (The default
    device is set, as after [alsa_input_init].) *)
Theorem SourceSpec_valid_iff_parsed
  (global_config : global_config_t) (_uri : string) (spec : SourceSpec AudioFormat) :
  is_Some (default_device global_config) ->
  SourceSpec_new ParseAudioFormat global_config _uri = inr spec ->
  GetURI spec = _uri /\
  (IsValid spec = true <-> is_Some (audio_format spec)) /\
  (IsValid spec = true -> IsValidScheme spec = true) /\
  (forall af, audio_format spec = Some af ->
              exists f, GetFormatString spec = Some f /\
                        ParseAudioFormat f = inr af).
Proof.
  intros [dd Hdd]. unfold SourceSpec_new.
  destruct (Split _uri "?") as [a b].
  set (fs := match b with Some b' => _ | None => _ end).
  destruct (StringAfterPrefixIgnoreCase a ALSA_URI_PREFIX) as [d|] eqn:Hdev.
  - rewrite IsValidScheme_named.
    assert (Hname : is_Some (if sv_empty (Some d)
                             then default_device global_config else Some d)).
    { destruct (sv_empty (Some d)); [rewrite Hdd|]; eauto. }
    destruct Hname as [d1 Hd1]. rewrite Hd1.
    destruct fs as [f|].
    + destruct (ParseAudioFormat f) as [e|af] eqn:Hparse; [done|].
      intros [= <-]. split; [done|]. split; [|split].
      * split; [eauto|done].
      * done.
      * intros af' [= <-]. by exists f.
    + intros [= <-]. split; [done|]. split; [|split].
      * split; [done|]. by intros [? ?].
      * done.
      * done.
  - intros [= <-]. split; [done|]. split; [|split].
    + split; [done|]. by intros [? ?].
    + done.
    + done.
Qed.

(** X11: a query that does not begin with [format=] leaves the spec
    without a format string, also when a default format is configured:
    the default stands in only when there is no query at all.  The
    spec then has a valid scheme, is not valid, and no format was
    parsed. *)
Theorem query_without_format_gets_no_default
  (global_config : global_config_t) (_uri query : string) :
  is_Some (default_device global_config) ->
  StringStartsWithIgnoreCase _uri ALSA_URI_PREFIX = true ->
  (Split _uri "?").2 = Some query ->
  StringStartsWithIgnoreCase query "format=" = false ->
  exists spec,
    SourceSpec_new ParseAudioFormat global_config _uri = inr spec /\
    GetFormatString spec = None /\
    audio_format spec = None /\
    IsValidScheme spec = true /\
    IsValid spec = false.
Proof.
  intros [dd Hdd] Hscheme Hq Hnf. rewrite <- scheme_of_head in Hscheme.
  unfold SourceSpec_new. destruct (Split _uri "?") as [a b].
  cbn [fst snd] in *. subst b.
  unfold StringAfterPrefixIgnoreCase. rewrite Hscheme, Hnf.
  rewrite IsValidScheme_named.
  eexists. split; [reflexivity|].
  split; [done|]. split; [done|].
  destruct (sv_empty _); rewrite ?Hdd; done.
Qed.

(** X12: when the format token of an identifier with the scheme prefix
    does not parse, the exception of the parser is the outcome of the
    constructor and of [Create], and no device has been touched. *)
Theorem bad_format_fails_before_open
  (global_config : global_config_t) (env : OpenEnv AudioFormat)
  (_uri f : string) (e : exn) :
  StringStartsWithIgnoreCase _uri ALSA_URI_PREFIX = true ->
  format_token global_config _uri = Some f ->
  ParseAudioFormat f = inl e ->
  SourceSpec_new ParseAudioFormat global_config _uri = inl e /\
  Create ParseAudioFormat GetFrameSize TimeToSize global_config env _uri
    = Threw e [] /\
  device_effects
    (Create ParseAudioFormat GetFrameSize TimeToSize global_config env _uri) = [].
Proof.
  intros Hscheme Htok Hparse. rewrite <- scheme_of_head in Hscheme.
  assert (Hnew : SourceSpec_new ParseAudioFormat global_config _uri = inl e).
  { unfold SourceSpec_new, format_token in *.
    destruct (Split _uri "?") as [a b]. cbn [fst snd] in *.
    unfold StringAfterPrefixIgnoreCase at 1. rewrite Hscheme.
    rewrite IsValidScheme_named.
    destruct b as [q|].
    - rewrite Htok. by rewrite Hparse.
    - rewrite Htok. by rewrite Hparse. }
  split; [done|]. unfold Create. by rewrite Hnew.
Qed.

(** X13: the three ways [Create] can end, once the plugin is
    initialised (the default device is set).  The null pointer: only
    for an identifier without the scheme prefix.  An exception: either
    no device was touched (the format did not parse), or
    [snd_pcm_open] failed and was the only call, or the configuration
    failed and the handle was closed again; the capture was never
    started.  A stream: the device was opened in non-blocking mode,
    configured, prepared and started, in this order, and the stream is
    ready and not paused. *)
Theorem Create_outcomes
  (global_config : global_config_t) (env : OpenEnv AudioFormat) (_uri : string) :
  is_Some (default_device global_config) ->
  match Create ParseAudioFormat GetFrameSize TimeToSize global_config env _uri with
  | Nullptr => StringStartsWithIgnoreCase _uri ALSA_URI_PREFIX = false
  | Threw e done =>
      pcm_calls done = [] \/
      (exists dev m,
         Z.odd m = true /\
         ((open_reply env < 0 /\ pcm_calls done = [snd_pcm_open dev m]) \/
          (0 <= open_reply env /\ configure_reply env = Some e /\
           pcm_calls done = [snd_pcm_open dev m; snd_pcm_configure; snd_pcm_close])))
  | Made s =>
      0 <= open_reply env /\ configure_reply env = None /\
      paused s = false /\ ready s = true /\ postponed_exception s = None /\
      exists m, Z.odd m = true /\
                pcm_calls (effects s)
                = [snd_pcm_open (device s) m; snd_pcm_configure;
                   snd_pcm_prepare; snd_pcm_start]
  end.
Proof.
  intros [dd Hdd].
  assert (Hodd : Z.odd (Z.lor SND_PCM_NONBLOCK (mode global_config)) = true).
  { rewrite <- Z.bit0_odd, Z.lor_spec. reflexivity. }
  unfold Create.
  destruct (SourceSpec_new ParseAudioFormat global_config _uri) as [e|spec] eqn:Hnew;
    [by left|].
  destruct (IsValidScheme spec) eqn:Hvalid; cbn [negb].
  - unfold AlsaInputStream_new, OpenDevice.
    destruct (Z.ltb_spec (open_reply env) 0).
    + right. eexists _, _. split; [exact Hodd|]. left. done.
    + destruct (configure_reply env) as [e|] eqn:Hconf.
      * right. eexists _, _. split; [exact Hodd|]. right. done.
      * cbn [paused ready postponed_exception effects device].
        split; [done|]. split; [done|]. split; [done|]. split; [done|].
        split; [done|]. eexists. split; [exact Hodd|]. reflexivity.
  - rewrite <- scheme_of_head.
    unfold SourceSpec_new in Hnew. destruct (Split _uri "?") as [a b].
    cbn [fst].
    destruct (StringAfterPrefixIgnoreCase a ALSA_URI_PREFIX) as [d|] eqn:Hd.
    + rewrite IsValidScheme_named in Hnew.
      assert (Hname : exists d1, (if sv_empty (Some d)
                                  then default_device global_config
                                  else Some d) = Some d1).
      { destruct (sv_empty (Some d)); rewrite ?Hdd; eauto. }
      destruct Hname as [d1 Hd1]. rewrite Hd1 in Hnew.
      destruct (match b with Some _ => _ | None => _ end) as [f|];
        [destruct (ParseAudioFormat f); [done|]|];
        injection Hnew as <-; by rewrite IsValidScheme_named in Hvalid.
    + unfold StringAfterPrefixIgnoreCase in Hd.
      by destruct (StringStartsWithIgnoreCase a ALSA_URI_PREFIX).
Qed.

(** X14: an identifier written out in full is read back as it was
    written.  For a device name without [?] and not empty, and a format
    string the parser accepts, [Create] on
    [alsa://<device>?format=<format>] with a willing device gives a
    stream on that device, with the frame size and the buffer sizes of
    the parsed format (one second of audio, resuming at half a second)
    and the MIME type made from the format string. *)
Theorem Create_explicit_identifier
  (global_config : global_config_t) (env : OpenEnv AudioFormat)
  (dev fmt : string) (af : AudioFormat) :
  dev <> EmptyString ->
  Forall (fun c => c <> "?"%char) (list_ascii_of_string dev) ->
  ParseAudioFormat fmt = inr af ->
  0 <= open_reply env -> configure_reply env = None ->
  let _uri := ALSA_URI_PREFIX +:+ dev +:+ "?format=" +:+ fmt in
  SourceSpec_new ParseAudioFormat global_config _uri
    = inr {| uri := _uri; device_name := Some dev;
             format_string := Some fmt; audio_format := Some af |} /\
  exists s,
    Create ParseAudioFormat GetFrameSize TimeToSize global_config env _uri = Made s /\
    device s = dev /\
    frame_size s = GetFrameSize af /\
    buffer_size s = TimeToSize af 1000 /\
    resume_at s = TimeToSize af 500 /\
    mime_type s = Some ("audio/x-mpd-alsa-pcm;format=" +:+ fmt).
Proof.
  intros Hne Hq Hparse Hopen Hconf _uri.
  assert (Hsplit : Split _uri "?" = (ALSA_URI_PREFIX +:+ dev, Some ("format=" +:+ fmt))).
  { subst _uri. change ("?format=" +:+ fmt) with (String "?" ("format=" +:+ fmt)).
    rewrite <- (append_assoc ALSA_URI_PREFIX dev).
    rewrite (Split_app "?" (ALSA_URI_PREFIX +:+ dev)); [done|].
    repeat (apply List.Forall_cons; [done|]). exact Hq. }
  assert (Hnew : SourceSpec_new ParseAudioFormat global_config _uri
                 = inr {| uri := _uri; device_name := Some dev;
                          format_string := Some fmt; audio_format := Some af |}).
  { unfold SourceSpec_new. rewrite Hsplit.
    rewrite !StringAfterPrefixIgnoreCase_app, IsValidScheme_named, Hparse.
    by destruct dev. }
  split; [exact Hnew|].
  unfold Create. rewrite Hnew, IsValidScheme_named. cbn [negb].
  unfold AlsaInputStream_new, OpenDevice.
  destruct (Z.ltb_spec (open_reply env) 0); [lia|]. rewrite Hconf.
  eexists. split; [reflexivity|]. done.
Qed.

End AlsaOpenFacts.

(** ** The settings of the plugin *)

Section AlsaInitFacts.
Import Alsa.

Variable get_bool : string -> exn + bool.

(** X15: [alsa_input_init] turns each of the three settings into one
    bit of the open mode: the bit is set exactly when the setting is
    switched off, and a setting that is not in the block counts as
    switched on.  A setting that is no boolean makes the
    initialisation fail. *)
Theorem alsa_input_init_mode (block : ConfigBlock) :
  match alsa_input_init get_bool block with
  | inr global_config =>
      exists resample chans format,
        GetBlockValue_bool get_bool block "auto_resample" true = inr resample /\
        GetBlockValue_bool get_bool block "auto_channels" true = inr chans /\
        GetBlockValue_bool get_bool block "auto_format" true = inr format /\
        Z.testbit (mode global_config) 16 = negb resample /\
        Z.testbit (mode global_config) 17 = negb chans /\
        Z.testbit (mode global_config) 18 = negb format /\
        (forall n, 0 <= n -> n <> 16 -> n <> 17 -> n <> 18 ->
                   Z.testbit (mode global_config) n = false)
  | inl e =>
      exists name, In name ["auto_resample"; "auto_channels"; "auto_format"] /\
                   exists v, block !! name = Some v /\ get_bool v = inl e
  end.
Proof.
  unfold alsa_input_init, mode_bit, GetBlockValue_bool.
  assert (Hbits : forall r c f : bool,
    let m := (if negb f
              then Z.lor (if negb c
                          then Z.lor (if negb r then Z.lor 0 SND_PCM_NO_AUTO_RESAMPLE
                                      else 0) SND_PCM_NO_AUTO_CHANNELS
                          else (if negb r then Z.lor 0 SND_PCM_NO_AUTO_RESAMPLE else 0))
                     SND_PCM_NO_AUTO_FORMAT
              else (if negb c
                    then Z.lor (if negb r then Z.lor 0 SND_PCM_NO_AUTO_RESAMPLE
                                else 0) SND_PCM_NO_AUTO_CHANNELS
                    else (if negb r then Z.lor 0 SND_PCM_NO_AUTO_RESAMPLE else 0))) in
    Z.testbit m 16 = negb r /\ Z.testbit m 17 = negb c /\ Z.testbit m 18 = negb f /\
    forall n, 0 <= n -> n <> 16 -> n <> 17 -> n <> 18 -> Z.testbit m n = false).
  { intros r c f m. subst m.
    destruct r, c, f; cbn [negb]; (split; [reflexivity|]);
      (split; [reflexivity|]); (split; [reflexivity|]);
      intros n Hn H16 H17 H18; rewrite ?Z.lor_spec, ?Z.bits_0;
      unfold SND_PCM_NO_AUTO_RESAMPLE, SND_PCM_NO_AUTO_CHANNELS,
        SND_PCM_NO_AUTO_FORMAT;
      change 65536 with (2 ^ 16); change 131072 with (2 ^ 17);
      change 262144 with (2 ^ 18);
      rewrite ?Z.pow2_bits_eqb by lia;
      repeat match goal with
             | |- context [?a =? ?b] => destruct (Z.eqb_spec a b); [lia|]
             end; reflexivity. }
  destruct (block !! "auto_resample") as [v1|] eqn:H1;
    [destruct (get_bool v1) as [e|r] eqn:G1|];
    try (exists "auto_resample"; split; [cbn; tauto|]; by exists v1).
  all: destruct (block !! "auto_channels") as [v2|] eqn:H2;
    [destruct (get_bool v2) as [e|c] eqn:G2|];
    try (exists "auto_channels"; split; [cbn; tauto|]; by exists v2).
  all: destruct (block !! "auto_format") as [v3|] eqn:H3;
    [destruct (get_bool v3) as [e|f] eqn:G3|];
    try (exists "auto_format"; split; [cbn; tauto|]; by exists v3).
  all: eexists _, _, _; split; [reflexivity|]; split; [reflexivity|];
    split; [reflexivity|]; cbn [mode]; apply Hbits.
Qed.

End AlsaInitFacts.

(** ** The negotiation of the hardware parameters *)

Section AlsaHwFacts.
Import AlsaHw.

Ltac run_configure r :=
  unfold ConfigureCapture, ConfigureCapture_steps, first_failure, checked_replies,
    hw_checked, hw_bind, hw_call, hw_throw, hw_ret;
  destruct (buffer_size_reply r =? 0) eqn:?;
  cbn [app List.find fst snd];
  repeat (match goal with
          | |- context [?x <? 0] => destruct (x <? 0) eqn:?
          end; cbn [app List.find fst snd]).

(** X16: [ConfigureCapture] fails exactly when one of the tested calls
    fails, and then with the error code and the message of the first
    one that failed, in the order of the calls; the period size counts
    among them only when the buffer size could be read. *)
Theorem ConfigureCapture_first_failure (format channels sample_rate : Z)
  (r : HwReplies) :
  (ConfigureCapture format channels sample_rate r).1
    = first_failure (checked_replies r).
Proof. run_configure r; reflexivity. Qed.


End AlsaHwFacts.

(** ** Paths in the configuration *)

Section ConfigPathFacts.
Import ConfigPath.

Context {AllocatedPath : Type}.
Variable IsNull : AllocatedPath -> bool.
Variable join : AllocatedPath -> AllocatedPath -> AllocatedPath.
Variable FromUTF8Throw : string_view -> PathError + AllocatedPath.
Variable IsAbsolute : string -> bool.
Variable GetHomeDir_of : string -> AllocatedPath.
Variables GetHomeDir GetUserConfigDir GetUserMusicDir : AllocatedPath.
Variables GetUserCacheDir GetUserRuntimeDir : AllocatedPath.
Variable build : Build.

Local Abbreviation ConfiguredHome_as user :=
  (GetConfiguredHome AllocatedPath IsNull GetHomeDir_of GetHomeDir user).

(** X18: a path that is not absolute and begins neither with [~] nor
    (in a build with XDG) with [$] is refused with "not an absolute
    path"; the empty path is one of them.  Without XDG a path that
    begins with [$] is refused in the same way. *)
Theorem relative_path_is_refused (configured_user : option string) (path : string) :
  win32 build = false ->
  IsAbsolute path = false ->
  (forall rest, path <> String "~" rest) ->
  (use_xdg build = true -> forall rest, path <> String "$" rest) ->
  (ParsePath AllocatedPath IsNull join FromUTF8Throw IsAbsolute
     GetHomeDir_of GetHomeDir GetUserConfigDir GetUserMusicDir GetUserCacheDir
     GetUserRuntimeDir build
     configured_user path) = inl (NotAbsolute path).
Proof.
  intros Hwin Habs Htilde Hdollar. unfold ParsePath. rewrite Hwin.
  assert (Hplain : ParsePath_plain AllocatedPath FromUTF8Throw IsAbsolute path
                   = inl (NotAbsolute path)).
  { unfold ParsePath_plain. by rewrite Habs. }
  destruct path as [|c rest]; [done|].
  destruct (Ascii.eqb_spec c "~") as [->|Hc1]; [by destruct (Htilde rest)|].
  destruct (Ascii.eqb_spec c "$") as [->|Hc2].
  - destruct (use_xdg build); [by destruct (Hdollar eq_refl rest)|done].
  - destruct c as [[] [] [] [] [] [] [] []]; try done.
Qed.


(** X20: with a configured user, [~/rest] is [~user/rest] for that
    user: the same path, or the same failure. *)
Theorem tilde_is_configured_user (user rest : string) :
  win32 build = false ->
  user <> EmptyString ->
  Forall (fun c => c <> "/"%char) (list_ascii_of_string user) ->
  ParsePath AllocatedPath IsNull join FromUTF8Throw IsAbsolute
     GetHomeDir_of GetHomeDir GetUserConfigDir GetUserMusicDir GetUserCacheDir
     GetUserRuntimeDir build
    (Some user) (String "~" (String "/" rest))
  = ParsePath AllocatedPath IsNull join FromUTF8Throw IsAbsolute
     GetHomeDir_of GetHomeDir GetUserConfigDir GetUserMusicDir GetUserCacheDir
     GetUserRuntimeDir build
    (Some user) (String "~" (user +:+ String "/" rest)).
Proof.
  intros Hwin Hne Hslash. unfold ParsePath. rewrite Hwin.
  pose proof (Split_app "/" user rest Hslash) as Hsplit.
  destruct user as [|c user']; [done|].
  cbn [list_ascii_of_string] in Hslash. apply Forall_cons in Hslash as [Hc _].
  change (String c user' +:+ String "/" rest)
    with (String c (user' +:+ String "/" rest)) in *.
  destruct (Ascii.eqb_spec c "/") as [->|_]; [done|].
  assert (Hthird :
    match String c (user' +:+ String "/" rest) with
    | EmptyString => ConfiguredHome_as (Some (String c user'))
    | String "/" rest0 =>
        join_throwing AllocatedPath join build
          (ConfiguredHome_as (Some (String c user'))) (FromUTF8Throw (Some rest0))
    | _ =>
        let '(user0, rest0) := Split (String c (user' +:+ String "/" rest)) "/" in
        join_throwing AllocatedPath join build
          (GetHome_of AllocatedPath IsNull GetHomeDir_of user0) (FromUTF8Throw rest0)
    end
    = join_throwing AllocatedPath join build
        (GetHome_of AllocatedPath IsNull GetHomeDir_of (String c user'))
        (FromUTF8Throw (Some rest))).
  { rewrite Hsplit. by destruct c as [[] [] [] [] [] [] [] []]. }
  exact (eq_sym Hthird).
Qed.

End ConfigPathFacts.

(** ** The further theorems at work on the example instances *)

Lemma SourceSpec_valid_iff_parsed_witness :
  let spec := {| Alsa.uri := "alsa://hw:0?format=44100:24:1";
                 Alsa.device_name := Some "hw:0";
                 Alsa.format_string := Some "44100:24:1";
                 Alsa.audio_format := Some (AlsaExample.mkFormat 44100 24 1) |} in
  is_Some (Alsa.default_device AlsaExample.configured) /\
  Alsa.SourceSpec_new AlsaExample.ParseAudioFormat AlsaExample.configured
    "alsa://hw:0?format=44100:24:1" = inr spec /\
  (Alsa.IsValid spec = true <-> is_Some (Alsa.audio_format spec)).
Proof.
  intros spec.
  assert (H1 : is_Some (Alsa.default_device AlsaExample.configured)) by (by eexists).
  assert (H2 : Alsa.SourceSpec_new AlsaExample.ParseAudioFormat AlsaExample.configured
                 "alsa://hw:0?format=44100:24:1" = inr spec) by reflexivity.
  split; [exact H1|]. split; [exact H2|].
  exact (proj1 (proj2 (SourceSpec_valid_iff_parsed AlsaExample.ParseAudioFormat
                         AlsaExample.configured _ spec H1 H2))).
Defined.

Lemma query_without_format_gets_no_default_witness :
  is_Some (Alsa.default_device AlsaExample.configured) /\
  StringStartsWithIgnoreCase "alsa://hw:0?rate=44100" Alsa.ALSA_URI_PREFIX = true /\
  (Split "alsa://hw:0?rate=44100" "?").2 = Some "rate=44100" /\
  StringStartsWithIgnoreCase "rate=44100" "format=" = false /\
  exists spec,
    Alsa.SourceSpec_new AlsaExample.ParseAudioFormat AlsaExample.configured
      "alsa://hw:0?rate=44100" = inr spec /\
    Alsa.GetFormatString spec = None /\
    Alsa.audio_format spec = None /\
    Alsa.IsValidScheme spec = true /\
    Alsa.IsValid spec = false.
Proof.
  assert (H1 : is_Some (Alsa.default_device AlsaExample.configured)) by (by eexists).
  assert (H2 : StringStartsWithIgnoreCase "alsa://hw:0?rate=44100"
                 Alsa.ALSA_URI_PREFIX = true) by reflexivity.
  assert (H3 : (Split "alsa://hw:0?rate=44100" "?").2 = Some "rate=44100")
    by reflexivity.
  assert (H4 : StringStartsWithIgnoreCase "rate=44100" "format=" = false)
    by reflexivity.
  split; [exact H1|]. split; [exact H2|]. split; [exact H3|]. split; [exact H4|].
  exact (query_without_format_gets_no_default AlsaExample.ParseAudioFormat
           AlsaExample.configured _ _ H1 H2 H3 H4).
Defined.

Lemma bad_format_fails_before_open_witness :
  StringStartsWithIgnoreCase "alsa://hw:0?format=loud" Alsa.ALSA_URI_PREFIX = true /\
  Alsa.format_token AlsaExample.configured "alsa://hw:0?format=loud" = Some "loud" /\
  Alsa.Create AlsaExample.ParseAudioFormat AlsaExample.GetFrameSize
    AlsaExample.TimeToSize AlsaExample.configured AlsaExample.willing
    "alsa://hw:0?format=loud"
    = Alsa.Threw (runtime_error "Failed to parse audio format") [].
Proof.
  assert (H1 : StringStartsWithIgnoreCase "alsa://hw:0?format=loud"
                 Alsa.ALSA_URI_PREFIX = true) by reflexivity.
  assert (H2 : Alsa.format_token AlsaExample.configured "alsa://hw:0?format=loud"
               = Some "loud") by reflexivity.
  assert (H3 : AlsaExample.ParseAudioFormat "loud"
               = inl (runtime_error "Failed to parse audio format")) by reflexivity.
  split; [exact H1|]. split; [exact H2|].
  exact (proj1 (proj2 (bad_format_fails_before_open AlsaExample.ParseAudioFormat
                         AlsaExample.GetFrameSize AlsaExample.TimeToSize
                         AlsaExample.configured AlsaExample.willing _ _ _ H1 H2 H3))).
Defined.

Lemma Create_outcomes_witness :
  let e := alsa_error (-22) "Cannot set sample rate" in
  let done := [Alsa.Call (Alsa.snd_pcm_open "hw:1" 1); Alsa.Call Alsa.snd_pcm_configure;
               Alsa.Call Alsa.snd_pcm_close] in
  is_Some (Alsa.default_device AlsaExample.configured) /\
  Alsa.Create AlsaExample.ParseAudioFormat AlsaExample.GetFrameSize
    AlsaExample.TimeToSize AlsaExample.configured AlsaExample.picky "alsa://"
    = Alsa.Threw e done /\
  (Alsa.pcm_calls done = [] \/
   exists dev m,
     Z.odd m = true /\
     ((Alsa.open_reply AlsaExample.picky < 0 /\
       Alsa.pcm_calls done = [Alsa.snd_pcm_open dev m]) \/
      (0 <= Alsa.open_reply AlsaExample.picky /\
       Alsa.configure_reply AlsaExample.picky = Some e /\
       Alsa.pcm_calls done
       = [Alsa.snd_pcm_open dev m; Alsa.snd_pcm_configure; Alsa.snd_pcm_close]))).
Proof.
  intros e done.
  assert (H1 : is_Some (Alsa.default_device AlsaExample.configured)) by (by eexists).
  assert (HC : Alsa.Create AlsaExample.ParseAudioFormat AlsaExample.GetFrameSize
                 AlsaExample.TimeToSize AlsaExample.configured AlsaExample.picky
                 "alsa://" = Alsa.Threw e done) by reflexivity.
  split; [exact H1|]. split; [exact HC|].
  pose proof (Create_outcomes AlsaExample.ParseAudioFormat AlsaExample.GetFrameSize
                AlsaExample.TimeToSize AlsaExample.configured AlsaExample.picky
                "alsa://" H1) as H.
  rewrite HC in H. exact H.
Defined.

Lemma alsa_input_init_mode_witness :
  Alsa.alsa_input_init AlsaExample.get_bool AlsaExample.no_resample
    = inr {| Alsa.default_device := Some "default";
             Alsa.default_format := Some "48000:16:2";
             Alsa.mode := 65536 |} /\
  exists resample chans format,
    Alsa.GetBlockValue_bool AlsaExample.get_bool AlsaExample.no_resample
      "auto_resample" true = inr resample /\
    Alsa.GetBlockValue_bool AlsaExample.get_bool AlsaExample.no_resample
      "auto_channels" true = inr chans /\
    Alsa.GetBlockValue_bool AlsaExample.get_bool AlsaExample.no_resample
      "auto_format" true = inr format /\
    Z.testbit 65536 16 = negb resample /\
    Z.testbit 65536 17 = negb chans /\
    Z.testbit 65536 18 = negb format /\
    (forall n, 0 <= n -> n <> 16 -> n <> 17 -> n <> 18 -> Z.testbit 65536 n = false).
Proof.
  assert (HC : Alsa.alsa_input_init AlsaExample.get_bool AlsaExample.no_resample
               = inr {| Alsa.default_device := Some "default";
                        Alsa.default_format := Some "48000:16:2";
                        Alsa.mode := 65536 |}) by (vm_compute; reflexivity).
  split; [exact HC|].
  pose proof (alsa_input_init_mode AlsaExample.get_bool AlsaExample.no_resample) as H.
  rewrite HC in H. exact H.
Defined.

Lemma Create_explicit_identifier_witness :
  "hw:2,0" <> EmptyString /\
  AlsaExample.ParseAudioFormat "48000:16:2" = inr (AlsaExample.mkFormat 48000 16 2) /\
  exists s,
    Alsa.Create AlsaExample.ParseAudioFormat AlsaExample.GetFrameSize
      AlsaExample.TimeToSize AlsaExample.configured AlsaExample.willing
      "alsa://hw:2,0?format=48000:16:2" = Alsa.Made s /\
    Alsa.device s = "hw:2,0" /\
    Alsa.frame_size s = 4 /\
    Alsa.buffer_size s = 192000 /\
    Alsa.resume_at s = 96000 /\
    Alsa.mime_type s = Some "audio/x-mpd-alsa-pcm;format=48000:16:2".
Proof.
  assert (H1 : "hw:2,0" <> EmptyString) by discriminate.
  assert (H2 : Forall (fun c => c <> "?"%char) (list_ascii_of_string "hw:2,0"))
    by (repeat constructor; discriminate).
  assert (H3 : AlsaExample.ParseAudioFormat "48000:16:2"
               = inr (AlsaExample.mkFormat 48000 16 2)) by reflexivity.
  assert (H4 : 0 <= Alsa.open_reply AlsaExample.willing) by (simpl; lia).
  assert (H5 : Alsa.configure_reply AlsaExample.willing = None) by reflexivity.
  split; [exact H1|]. split; [exact H3|].
  exact (proj2 (Create_explicit_identifier AlsaExample.ParseAudioFormat
                  AlsaExample.GetFrameSize AlsaExample.TimeToSize
                  AlsaExample.configured AlsaExample.willing
                  "hw:2,0" "48000:16:2" _ H1 H2 H3 H4 H5)).
Defined.


Lemma relative_path_is_refused_witness :
  PathExample.IsAbsolute "music/library" = false /\
  PathExample.ParsePath None "music/library"
    = inl (ConfigPath.NotAbsolute "music/library") /\
  PathExample.ParsePath None "" = inl (ConfigPath.NotAbsolute "").
Proof.
  assert (H1 : PathExample.IsAbsolute "music/library" = false) by reflexivity.
  split; [exact H1|]. split.
  - apply relative_path_is_refused; [reflexivity|exact H1|discriminate|discriminate].
  - apply relative_path_is_refused; [reflexivity|reflexivity|discriminate|discriminate].
Defined.


Lemma tilde_is_configured_user_witness :
  ConfigPath.win32 PathExample.posix = false /\
  "max" <> EmptyString /\
  PathExample.ParsePath (Some "max") "~/Music" = inr "/home/max/Music" /\
  PathExample.ParsePath (Some "max") "~/Music"
    = PathExample.ParsePath (Some "max") "~max/Music".
Proof.
  split; [reflexivity|]. split; [discriminate|]. split; [reflexivity|].
  apply (tilde_is_configured_user PathExample.IsNull PathExample.join
           PathExample.FromUTF8Throw PathExample.IsAbsolute PathExample.GetHomeDir_of
           "/home/max" "/home/max/.config" "/home/max/Music" "/home/max/.cache"
           "/run/user/1000" PathExample.posix "max" "Music");
    [reflexivity|discriminate|repeat constructor; discriminate].
Defined.
